(** * data2.py: vocabulary building, caption tokenisation, dataset reading
      and batch iteration

    A shallow embedding of [src/data2.py].  The module is Python 2 code
    (byte strings with [.decode], [dict.keys()] returning a list, an
    iterator protocol based on a method called [next]), and the embedding
    follows Python 2 semantics throughout.

    - Python dictionaries are [gmap]s; the order in which a Python 2
      dictionary enumerates its items is unspecified, and the embedding
      uses the enumeration order of [map_to_list] for it.
    - Exceptions are values of [exn]; code that can raise lives in the
      [result] monad.
    - Global names that a function body mentions and the module does
      not bind are looked up in an explicit namespace ([Globals]); the
      namespace of the module as written is [module_globals]. *)

From Stdlib Require Import ZArith Lia Ascii String.
From stdpp Require Import gmap strings list fin_maps sorting pretty.

Local Open Scope string_scope.
Local Open Scope list_scope.
Local Open Scope Z_scope.

(** ** Exceptions and the result monad *)

Inductive exn : Type :=
  | NameError (name : string)
  | TypeError
  | ValueError
  | IndexError
  | KeyError (key : string)
  | IOError (path : string)
  | RuntimeError
  | UnicodeDecodeError
  | StopIteration
  | NotImplementedError.

Inductive result (A : Type) : Type :=
  | Ok (a : A)
  | Raise (e : exn).
Arguments Ok {A} a.
Arguments Raise {A} e.

#[global] Instance result_ret : MRet result := λ A a, Ok a.
#[global] Instance result_bind : MBind result := λ A B k r,
  match r with
  | Ok a => k a
  | Raise e => Raise e
  end.
#[global] Instance result_fmap : FMap result := λ A B f r,
  match r with
  | Ok a => Ok (f a)
  | Raise e => Raise e
  end.

(** Running a fallible step over a list, left to right; the first
    exception ends the loop. *)
Fixpoint rmapM {A B} (f : A → result B) (l : list A) : result (list B) :=
  match l with
  | [] => Ok []
  | x :: l' => y ← f x; ys ← rmapM f l'; Ok (y :: ys)
  end.

(** ** The [Vocabulary] class *)

Module Vocab.

(** Modelled from the spec: the class [Vocabulary] is imported from the
    module [vocab], which is not part of the sources at hand.  The spec
    calls it a token vocabulary that [build_vocabulary] fills with
    [add_word]; the model is the usual word/index wrapper: [add_word]
    gives a word not yet present the next free index and leaves the
    vocabulary alone otherwise, and calling the vocabulary on a word
    yields its index, or the index of ['<unk>'] for an unknown word. *)
Record Vocabulary : Type := mkVocabulary {
  word2idx : gmap string nat;
  idx2word : gmap nat string;
  idx : nat
}.

(** Modelled from the spec: [Vocabulary()], the constructor of the missing
    class; a new vocabulary holds no word. *)
Definition empty : Vocabulary :=
  {| word2idx := ∅; idx2word := ∅; idx := 0 |}.

(** Modelled from the spec: [vocab.add_word(word)] of the missing class. *)
Definition add_word (word : string) (v : Vocabulary) : Vocabulary :=
  match word2idx v !! word with
  | Some _ => v
  | None =>
      {| word2idx := <[word := idx v]> (word2idx v);
         idx2word := <[idx v := word]> (idx2word v);
         idx := S (idx v) |}
  end.

(** Modelled from the spec: [vocab(word)] of the missing class. *)
Definition call (v : Vocabulary) (word : string) : result nat :=
  match word2idx v !! word with
  | Some i => Ok i
  | None =>
      match word2idx v !! "<unk>" with
      | Some i => Ok i
      | None => Raise (KeyError "<unk>")
      end
  end.

(** The word is in the vocabulary. *)
Definition contains (v : Vocabulary) (word : string) : Prop :=
  is_Some (word2idx v !! word).

(** Modelled from the spec: [len(vocab)] of the missing class, which also
    decides the truth value of the object. *)
Definition len (v : Vocabulary) : nat := size (word2idx v).

End Vocab.

Export Vocab (Vocabulary).

(** ** [collections.Counter] *)

Module Counter.

(** [Counter.update(iterable)]: one more occurrence for every element. *)
Definition update (c : gmap string nat) (words : list string) : gmap string nat :=
  foldl (λ c w, <[w := S (default 0%nat (c !! w))]> c) c words.

(** [Counter.items()]. *)
Definition items (c : gmap string nat) : list (string * nat) :=
  map_to_list c.

End Counter.

(** ** [os.path.join] on two components *)

Definition ends_with_slash (s : string) : bool :=
  match rev (list_ascii_of_string s) with
  | c :: _ => bool_decide (c = "/"%char)
  | [] => false
  end.

Definition starts_with_slash (s : string) : bool :=
  match s with
  | String c _ => bool_decide (c = "/"%char)
  | EmptyString => false
  end.

Definition os_path_join (a b : string) : string :=
  if starts_with_slash b then b
  else if bool_decide (a = "") then b
  else if ends_with_slash a then a +:+ b
  else a +:+ "/" +:+ b.

(** ** [build_vocabulary] (lines 13-39) *)

(** The four special tokens, in the order of lines 27-30. *)
Definition special_tokens : list string :=
  ["<pad>"; "<start>"; "<end>"; "<unk>"].

(** Lines 18-20: the counter over all captions. *)
Definition count_captions (captions : list (list string)) : gmap string nat :=
  foldl Counter.update ∅ captions.

(** Line 23: the words kept by the threshold. *)
Definition frequent_words (counter : gmap string nat) (threshold : Z)
  : list string :=
  (filter (λ wc : string * nat, threshold ≤ Z.of_nat wc.2) (Counter.items counter)).*1.

(** A pickled object written to a file. *)
Record dumped : Type := mkDumped {
  dump_path : string;
  dump_obj : Vocabulary
}.

(** The function returns the vocabulary; the second component is the file
    it writes on the way (lines 35-38). *)
Definition build_vocabulary (captions : list (list string)) (path : string)
    (threshold : Z) : Vocabulary * dumped :=
  let counter := count_captions captions in
  let words := frequent_words counter threshold in
  let vocab := Vocab.empty in
  let vocab := Vocab.add_word "<pad>" vocab in
  let vocab := Vocab.add_word "<start>" vocab in
  let vocab := Vocab.add_word "<end>" vocab in
  let vocab := Vocab.add_word "<unk>" vocab in
  let vocab := foldl (λ v w, Vocab.add_word w v) vocab words in
  let path := os_path_join path "vocab.pkl" in
  (vocab, {| dump_path := path; dump_obj := vocab |}).

(** The defaults of the signature: [path='.'], [threshold=4]. *)
Definition build_vocabulary_default (captions : list (list string))
  : Vocabulary * dumped :=
  build_vocabulary captions "." 4.

(** Total number of occurrences of a word over all captions. *)
Definition occurrences (w : string) (captions : list (list string)) : nat :=
  length (filter (λ x, x = w) (concat captions)).


(** ** The module's global namespace *)

(** The function bodies mention three global names that the module never
    binds: it imports [os], [re], [pickle], [Counter], [np], [nltk],
    [DataLoader], [Dataset] and [Vocabulary] (lines 1-8) and defines its
    own constants, functions and classes, but [torch], [random] and
    [vocab] appear in no import and no assignment.  Evaluating an unbound
    global name raises [NameError].  A [Globals] says what the namespace
    holds for these three names when a function runs. *)
Record Globals : Type := mkGlobals {
  g_torch : bool;          (* is the [torch] package bound *)
  g_random : bool;         (* is the [random] module bound *)
  g_vocab : option nat     (* the vocabulary object bound to [vocab] *)
}.

(** The namespace of the module as it is written. *)
Definition module_globals : Globals :=
  {| g_torch := false; g_random := false; g_vocab := None |}.

Definition global_torch (G : Globals) : result unit :=
  if g_torch G then Ok tt else Raise (NameError "torch").

Definition global_random (G : Globals) : result unit :=
  if g_random G then Ok tt else Raise (NameError "random").

Definition global_vocab (G : Globals) : result nat :=
  match g_vocab G with
  | Some v => Ok v
  | None => Raise (NameError "vocab")
  end.

(** ** Python helpers *)

(** [l[:k]] for an integer [k]; a negative [k] counts from the end. *)
Definition py_slice_to {A} (k : Z) (l : list A) : list A :=
  if bool_decide (0 ≤ k) then take (Z.to_nat k) l
  else take (length l - Z.to_nat (- k)) l.

(** [l[i]] on a list or array, for a non-negative index. *)
Definition py_index {A} (l : list A) (i : nat) : result A :=
  match l !! i with
  | Some x => Ok x
  | None => Raise IndexError
  end.

(** [s.split(sep)] for a one-character separator. *)
Fixpoint str_split (sep : ascii) (s : string) : list string :=
  match s with
  | EmptyString => [""]
  | String c s' =>
      if bool_decide (c = sep) then "" :: str_split sep s'
      else match str_split sep s' with
           | x :: r => String c x :: r
           | [] => [String c ""]
           end
  end.

Definition newline : ascii := ascii_of_nat 10.
Definition tab : ascii := ascii_of_nat 9.

(** [l.sort(key=..., reverse=True)]: a stable sort by non-increasing key;
    entries of equal key keep their order. *)
Fixpoint insert_desc {A} (key : A → nat) (x : A) (l : list A) : list A :=
  match l with
  | [] => [x]
  | y :: l' =>
      if bool_decide (key x < key y)%nat then y :: insert_desc key x l'
      else x :: l
  end.

Definition py_sort_desc {A} (key : A → nat) (l : list A) : list A :=
  foldr (insert_desc key) [] l.

(** ** [tokenize] (lines 72-81) *)

(** The character classes of the [re] module on Python 2 byte strings
    (no [LOCALE] or [UNICODE] flag): [\s] is [ \t\n\r\f\v] and [\w] is
    [[a-zA-Z0-9_]]. *)
Definition re_space (c : ascii) : bool :=
  let n := nat_of_ascii c in
  bool_decide (n = 32 ∨ 9 ≤ n ≤ 13)%nat.

Definition re_word (c : ascii) : bool :=
  let n := nat_of_ascii c in
  bool_decide (48 ≤ n ≤ 57 ∨ 65 ≤ n ≤ 90 ∨ 97 ≤ n ≤ 122 ∨ n = 95)%nat.

(** One character of the group [([^\s\w]|_)]. *)
Definition re_group (c : ascii) : bool :=
  negb (re_space c || re_word c) || bool_decide (c = "_"%char).

(** The longest match of [([^\s\w]|_)+] at the head of the input: the run
    it consumes and what is left. *)
Fixpoint re_match_run (l : list ascii) : list ascii * list ascii :=
  match l with
  | c :: l' =>
      if re_group c then let '(run, rest) := re_match_run l' in (c :: run, rest)
      else ([], l)
  | [] => ([], [])
  end.

(** [re.sub(r'([^\s\w]|_)+', '', s)]: scanning from the left, every
    (non-empty, greedy) match is replaced by the empty string, and a
    character at which no match starts is copied.  [fuel] bounds the
    number of scan steps; the length of the input is enough. *)
Fixpoint re_sub_scan (fuel : nat) (l : list ascii) : list ascii :=
  match fuel with
  | O => []
  | S fuel' =>
      match l with
      | [] => []
      | c :: l' =>
          match re_match_run l with
          | ([], _) => c :: re_sub_scan fuel' l'
          | (_ :: _, rest) => re_sub_scan fuel' rest
          end
      end
  end.

Definition re_sub (s : string) : string :=
  let l := list_ascii_of_string s in
  string_of_list_ascii (re_sub_scan (length l) l).

(** [str.lower()] on a byte string. *)
Definition lower_char (c : ascii) : ascii :=
  let n := nat_of_ascii c in
  if bool_decide (65 ≤ n ≤ 90)%nat then ascii_of_nat (n + 32) else c.

Definition str_lower (s : string) : string :=
  string_of_list_ascii (lower_char <$> list_ascii_of_string s).

(** [s.decode('utf-8')].  A unicode object is represented by its UTF-8
    encoding, so that decoding checks the bytes and keeps them.  The
    Python 2 codec accepts the byte sequences below (it rejects overlong
    forms and code points above U+10FFFF, and lets surrogates pass). *)
Definition cont_byte (n : nat) : bool := bool_decide (128 ≤ n ≤ 191)%nat.

Fixpoint utf8_valid_bytes (fuel : nat) (l : list nat) : bool :=
  match fuel with
  | O => bool_decide (l = [])
  | S fuel' =>
      match l with
      | [] => true
      | b0 :: l1 =>
          if bool_decide (b0 < 128)%nat then utf8_valid_bytes fuel' l1
          else if bool_decide (194 ≤ b0 ≤ 223)%nat then
            match l1 with
            | b1 :: l2 => cont_byte b1 && utf8_valid_bytes fuel' l2
            | _ => false
            end
          else if bool_decide (224 ≤ b0 ≤ 239)%nat then
            match l1 with
            | b1 :: b2 :: l3 =>
                cont_byte b1 && cont_byte b2
                && (bool_decide (b0 ≠ 224) || bool_decide (160 ≤ b1))%nat
                && utf8_valid_bytes fuel' l3
            | _ => false
            end
          else if bool_decide (240 ≤ b0 ≤ 244)%nat then
            match l1 with
            | b1 :: b2 :: b3 :: l4 =>
                cont_byte b1 && cont_byte b2 && cont_byte b3
                && (bool_decide (b0 ≠ 240) || bool_decide (144 ≤ b1))%nat
                && (bool_decide (b0 ≠ 244) || bool_decide (b1 ≤ 143))%nat
                && utf8_valid_bytes fuel' l4
            | _ => false
            end
          else false
      end
  end.

Definition utf8_valid (s : string) : bool :=
  let l := nat_of_ascii <$> list_ascii_of_string s in
  utf8_valid_bytes (length l) l.

Definition str_decode_utf8 (s : string) : result string :=
  if utf8_valid s then Ok s else Raise UnicodeDecodeError.

Section Data2.

(** The elements of the feature arrays, and the conversion
    [.astype("float32")] on one element. *)
Context {float : Type}.
Variable astype_float32 : float → float.

(** [nltk.tokenize.word_tokenize]. *)
Variable word_tokenize : string → list string.

(** The random sources: [np.random.shuffle] (what the call leaves in the
    array) and [torch.randperm]. *)
Variable np_random_shuffle : list nat → list nat.
Variable torch_randperm : nat → list nat.

Definition tokenize (s : string) : result (list string) :=
  let s := re_sub s in
  u ← str_decode_utf8 (str_lower s);
  let tokens := word_tokenize u in
  Ok tokens.

(** ** Files *)

(** What [open(path).read()] and [np.load(path)] find; [None] is a missing
    file.  A feature file holds a two-dimensional array, one row per
    image. *)
Record FileSystem : Type := mkFileSystem {
  fs_text : string → option string;
  fs_npy : string → option (list (list float))
}.

Definition open_read (fs : FileSystem) (path : string) : result string :=
  match fs_text fs path with
  | Some content => Ok content
  | None => Raise (IOError path)
  end.

Definition np_load (fs : FileSystem) (path : string)
  : result (list (list float)) :=
  match fs_npy fs path with
  | Some a => Ok a
  | None => Raise (IOError path)
  end.

Definition astype (a : list (list float)) : list (list float) :=
  map (map astype_float32) a.

(** [np.repeat(a, k, axis=0)]. *)
Definition np_repeat {A} (k : nat) (a : list A) : list A :=
  concat (replicate k <$> a).

(** [np.arange(n)] for an integer [n]; empty when [n] is not positive. *)
Definition np_arange (n : Z) : list nat := seq 0 (Z.to_nat n).

(** [np.arange(lo, hi)]. *)
Definition np_arange2 (lo hi : nat) : list nat := seq lo (hi - lo).

(** [a[inds]] with a list of non-negative indices. *)
Definition np_take {A} (a : list A) (inds : list nat) : result (list A) :=
  rmapM (py_index a) inds.

Definition COCO_PATH : string := "/roaming/u1257964/coco_mulisera".
Definition M30K_PATH : string := "/roaming/u1257964/multi30k-dataset/".

(** ** [read_m30K] (lines 83-114) *)

Definition read_m30K (fs : FileSystem) (data_path lang split : string)
    (lang_prefix : bool) : result (list (list float) * list string) :=
  let split := if bool_decide (split = "test") then "test_2016" else split in
  let img_path := data_path +:+ "/data/imgfeats/" in
  let imgpath := os_path_join img_path (split +:+ "-resnet50-avgpool.npy") in
  image_vectors ← astype <$> np_load fs imgpath;
  caps ← rmapM (λ i : nat,
            let text := split +:+ ".lc.norm.tok." +:+ pretty i +:+ "." +:+ lang in
            let path := os_path_join "/data/task2/tok/" text in
            content ← open_read fs (data_path +:+ path);
            let t := str_split newline content in
            Ok (py_slice_to (-1) t))
          (seq 1 5);
  let captions := concat caps in
  let images := np_repeat 5 image_vectors in
  Ok (images, captions).

(** ** [read_coco] (lines 117-158) *)

(** [y.split('\t')[0]]. *)
Definition first_field (y : string) : string :=
  default "" (head (str_split tab y)).

(** Lines 143-155, taken when [downsample] is true as a condition. *)
Definition coco_downsample (image_vectors : list (list float))
    (captions : list string) (downsample : Z)
  : result (list (list float) * list string) :=
  let a := np_arange (Z.of_nat (length image_vectors) - 1) in
  let a := np_random_shuffle a in
  let img_inds := py_slice_to downsample a in
  let cap_inds := (λ x, np_arange2 (x * 5) (x * 5 + 5)) <$> img_inds in
  let cap_inds := concat cap_inds in
  image_vectors ← np_take image_vectors img_inds;
  captions ← np_take captions cap_inds;
  Ok (image_vectors, captions).

(** [downsample] is [False] (here [0]) or the number of images to keep. *)
Definition read_coco (fs : FileSystem) (data_path split : string)
    (lang_prefix : bool) (downsample : Z)
  : result (list (list float) * list string) :=
  let img_path := os_path_join data_path "imgfeats" in
  let img_path := os_path_join img_path (split +:+ "-resnet50-avgpool.npy") in
  image_vectors ← astype <$> np_load fs img_path;
  let text := split +:+ "_captions.txt" in
  let path := os_path_join data_path text in
  content ← open_read fs path;
  let t := str_split newline content in
  let caps := [py_slice_to (-1) t] in
  let captions := first_field <$> concat caps in
  '(image_vectors, captions) ←
    (if bool_decide (downsample ≠ 0)
     then coco_downsample image_vectors captions downsample
     else Ok (image_vectors, captions));
  let images := np_repeat 5 image_vectors in
  Ok (images, captions).

(** ** [load_data] (lines 161-178) *)

Definition load_data (fs : FileSystem) (name split : string)
    (lang_prefix : bool) (downsample : Z)
  : result (list (list float) * list string) :=
  if bool_decide (name = "coconumpy") then
    let downsample := if bool_decide (split = "val") then 5000 else downsample in
    let path := COCO_PATH in
    read_coco fs path split lang_prefix downsample
  else if bool_decide (name = "m30ken") then
    let path := M30K_PATH in
    read_m30K fs path "en" split lang_prefix
  else if bool_decide (name = "m30kde") then
    let path := M30K_PATH in
    read_m30K fs path "de" split lang_prefix
  else Raise NotImplementedError.

(** ** The object store *)

(** Vocabularies and datasets are mutable Python objects that several
    places hold at once (a dataset is held by the collection, by its data
    loader and by the caller; a vocabulary by every dataset it was
    assigned to), so they live in a store and are named by their position
    in it.  [h_files] lists the files written by [pickle.dump]. *)
Record ImageCaptionDataset : Type := mkImageCaptionDataset {
  ds_captions : list string;
  ds_images : list (list float);
  ds_length : nat;
  ds_tokenized_captions : list (list string);
  ds_vocab : option nat   (* the attribute [vocab]; [None] when never set *)
}.

Record Heap : Type := mkHeap {
  h_vocabs : list Vocabulary;
  h_datasets : list ImageCaptionDataset;
  h_files : list dumped
}.

Definition empty_heap : Heap :=
  {| h_vocabs := []; h_datasets := []; h_files := [] |}.

(** Following a reference.  References are only made by allocation, so a
    running program never follows one that is not in the store; the model
    reports [RuntimeError] there. *)
Definition deref_dataset (h : Heap) (l : nat) : result ImageCaptionDataset :=
  match h_datasets h !! l with
  | Some d => Ok d
  | None => Raise RuntimeError
  end.

Definition deref_vocab (h : Heap) (l : nat) : result Vocabulary :=
  match h_vocabs h !! l with
  | Some v => Ok v
  | None => Raise RuntimeError
  end.

(** [build_vocabulary] as a step on the store: the new vocabulary object
    is allocated and the file it dumps is recorded. *)
Definition build_vocabulary_in (h : Heap) (captions : list (list string))
  : Heap * nat :=
  let '(vocab, file) := build_vocabulary_default captions in
  ({| h_vocabs := h_vocabs h ++ [vocab];
      h_datasets := h_datasets h;
      h_files := h_files h ++ [file] |},
   length (h_vocabs h)).

(** The truth value of the argument [vocab] of the constructor: [None] is
    false, and an object with [__len__] is true when its length is not
    zero. *)
Definition vocab_truthy (h : Heap) (vocab : option nat) : result bool :=
  match vocab with
  | None => Ok false
  | Some l => v ← deref_vocab h l; Ok (bool_decide (Vocab.len v ≠ 0%nat))
  end.

(** ** [ImageCaptionDataset] (lines 182-208) *)

(** [__init__]: the new dataset object and the store holding it. *)
Definition ImageCaptionDataset_init (h : Heap) (captions : list string)
    (images : list (list float)) (vocab : option nat) : result (Heap * nat) :=
  let length_ := length captions in
  tokenized_captions ← rmapM tokenize captions;
  t ← vocab_truthy h vocab;
  let '(h, self_vocab) :=
    if negb t then
      let '(h, v) := build_vocabulary_in h tokenized_captions in (h, Some v)
    else (h, None) in
  let self := {| ds_captions := captions;
                 ds_images := images;
                 ds_length := length_;
                 ds_tokenized_captions := tokenized_captions;
                 ds_vocab := self_vocab |} in
  Ok ({| h_vocabs := h_vocabs h;
         h_datasets := h_datasets h ++ [self];
         h_files := h_files h |},
      length (h_datasets h)).

(** A dataset item: image tensor, caption tensor, and the index twice. *)
Definition item : Type := list float * list nat * nat * nat.

(** [__getitem__]. *)
Definition ImageCaptionDataset_getitem (G : Globals) (h : Heap) (self : nat)
    (index : nat) : result item :=
  d ← deref_dataset h self;
  _ ← global_torch G;
  image ← py_index (ds_images d) index;
  tokens ← py_index (ds_tokenized_captions d) index;
  vocab ← global_vocab G;
  vocab ← deref_vocab h vocab;
  start ← Vocab.call vocab "<start>";
  body ← rmapM (Vocab.call vocab) tokens;
  end_ ← Vocab.call vocab "<end>";
  let caption := [start] ++ body ++ [end_] in
  _ ← global_torch G;
  let target := caption in
  Ok (image, target, index, index).

Definition ImageCaptionDataset_len (h : Heap) (self : nat) : result nat :=
  d ← deref_dataset h self; Ok (ds_length d).

(** ** [collate_fn] (lines 42-68) *)

(** A mini-batch: stacked images, padded targets, lengths, ids. *)
Definition batch : Type :=
  list (list float) * list (list nat) * list nat * list nat.

(** [zip] of the unpacked [data], bound to four names; no entries leave nothing to
    unpack. *)
Definition unzip4 (data : list item)
  : result (list (list float) * list (list nat) * list nat * list nat) :=
  match data with
  | [] => Raise ValueError
  | _ => Ok ((λ x : item, x.1.1.1) <$> data, (λ x : item, x.1.1.2) <$> data,
             (λ x : item, x.1.2) <$> data, (λ x : item, x.2) <$> data)
  end.

(** [torch.stack(images, 0)]: the tensors must have one shape. *)
Definition torch_stack (G : Globals) (images : list (list float))
  : result (list (list float)) :=
  _ ← global_torch G;
  match images with
  | [] => Raise RuntimeError
  | x :: rest =>
      if forallb (λ y, bool_decide (length y = length x)) rest
      then Ok images else Raise RuntimeError
  end.

(** [torch.zeros(rows, cols).long()]. *)
Definition torch_zeros (G : Globals) (rows cols : nat)
  : result (list (list nat)) :=
  _ ← global_torch G; Ok (replicate rows (replicate cols 0%nat)).

(** [targets[i, :end] = cap[:end]]. *)
Definition assign_row (targets : list (list nat)) (i : nat) (end_ : nat)
    (cap : list nat) : list (list nat) :=
  match targets !! i with
  | Some row => <[i := take end_ cap ++ drop end_ row]> targets
  | None => targets
  end.

(** [enumerate(l)]. *)
Definition enumerate {A} (l : list A) : list (nat * A) := imap pair l.

(** The function sorts its argument in place: the first component is the
    list as the call leaves it, the second what the call returns or
    raises. *)
Definition collate_fn (G : Globals) (data : list item)
  : list item * result batch :=
  let data := py_sort_desc (λ x : item, length x.1.1.2) data in
  (data,
   '(images, captions, ids, img_ids) ← unzip4 data;
   images ← torch_stack G images;
   let lengths := length <$> captions in
   targets ← torch_zeros G (length captions) (max_list lengths);
   let targets :=
     foldl (λ targets '(i, cap),
              let end_ := default 0%nat (lengths !! i) in
              assign_row targets i end_ cap)
           targets (enumerate captions) in
   Ok (images, targets, lengths, ids)).

(** ** [torch.utils.data.DataLoader] *)

(** The collate function a loader was given. *)
Inductive collate : Type :=
  | default_collate
  | the_collate_fn.

Record DataLoader : Type := mkDataLoader {
  dl_dataset : nat;
  dl_batch_size : Z;
  dl_shuffle : bool;
  dl_pin_memory : bool;
  dl_collate_fn : collate
}.

(** The batch sampler ([drop_last] is left at its default, false): indices
    are gathered until the batch holds [batch_size] of them; what is left
    at the end makes a last, shorter batch. *)
Fixpoint batch_sampler (batch_size : Z) (acc : list nat) (order : list nat)
  : list (list nat) :=
  match order with
  | [] => match acc with [] => [] | _ => [acc] end
  | idx :: order' =>
      let acc := acc ++ [idx] in
      if bool_decide (Z.of_nat (length acc) = batch_size)
      then acc :: batch_sampler batch_size [] order'
      else batch_sampler batch_size acc order'
  end.

(** The order in which a loader visits the indices of a dataset of [n]
    items: [RandomSampler] when [shuffle] is set, else
    [SequentialSampler]. *)
Definition sampler_order (dl : DataLoader) (n : nat) : list nat :=
  if dl_shuffle dl then torch_randperm n else seq 0 n.

(** The iterator [iter(data_loader)].  The samplers are generators, so the
    order is drawn when the first batch is asked for: [it_pending] is
    [None] until then, and afterwards the index batches still to come. *)
Record DataLoaderIter : Type := mkDataLoaderIter {
  it_loader : DataLoader;
  it_pending : option (list (list nat))
}.

Definition DataLoader_iter (dl : DataLoader) : DataLoaderIter :=
  {| it_loader := dl; it_pending := None |}.

(** [iter(it)] on a loader iterator: its [__iter__] returns the iterator
    itself, with the state it is in. *)
Definition DataLoaderIter_iter (it : DataLoaderIter) : DataLoaderIter := it.

(** The index batches an iterator has still to serve. *)
Definition pending_batches (h : Heap) (it : DataLoaderIter)
  : result (list (list nat)) :=
  match it_pending it with
  | Some bs => Ok bs
  | None =>
      n ← ImageCaptionDataset_len h (dl_dataset (it_loader it));
      Ok (batch_sampler (dl_batch_size (it_loader it)) []
            (sampler_order (it_loader it) n))
  end.

Definition run_collate (G : Globals) (c : collate) (items : list item)
  : result batch :=
  match c with
  | the_collate_fn => (collate_fn G items).2
  | default_collate => Raise TypeError
  end.

(** [next(it)] on a loader iterator: the iterator as the call leaves it
    and the batch, or the exception. *)
Definition DataLoaderIter_next (G : Globals) (h : Heap) (it : DataLoaderIter)
  : DataLoaderIter * result batch :=
  match pending_batches h it with
  | Raise e => (it, Raise e)
  | Ok [] =>
      ({| it_loader := it_loader it; it_pending := Some [] |},
       Raise StopIteration)
  | Ok (indices :: rest) =>
      ({| it_loader := it_loader it; it_pending := Some rest |},
       items ← rmapM (ImageCaptionDataset_getitem G h
                        (dl_dataset (it_loader it))) indices;
       run_collate G (dl_collate_fn (it_loader it)) items)
  end.

(** ** [DatasetCollection] (lines 210-255) *)

Record DatasetCollection : Type := mkDatasetCollection {
  data_loaders : gmap string DataLoaderIter;
  data_sets : gmap string nat;
  val_loaders : gmap string DataLoader
}.

Definition DatasetCollection_init : DatasetCollection :=
  {| data_loaders := ∅; data_sets := ∅; val_loaders := ∅ |}.

Definition add_trainset (self : DatasetCollection) (name : string)
    (dset : nat) (batch_size : Z) : DatasetCollection :=
  let data_loader := {| dl_dataset := dset;
                        dl_batch_size := batch_size;
                        dl_shuffle := true;
                        dl_pin_memory := true;
                        dl_collate_fn := the_collate_fn |} in
  {| data_loaders := <[name := DataLoader_iter data_loader]> (data_loaders self);
     data_sets := <[name := dset]> (data_sets self);
     val_loaders := val_loaders self |}.

Definition add_valset (self : DatasetCollection) (name : string)
    (dset : nat) (batch_size : Z) : DatasetCollection :=
  let data_loader := {| dl_dataset := dset;
                        dl_batch_size := batch_size;
                        dl_shuffle := false;
                        dl_pin_memory := true;
                        dl_collate_fn := the_collate_fn |} in
  {| data_loaders := data_loaders self;
     data_sets := data_sets self;
     val_loaders := <[name := data_loader]> (val_loaders self) |}.

(** [dict.keys()] and [dict.items()]. *)
Definition dict_keys {V} (d : gmap string V) : list string :=
  (map_to_list d).*1.

(** [obj.vocab = vocab] on the dataset object at [l]. *)
Definition set_vocab (h : Heap) (l : nat) (vocab : nat) : Heap :=
  {| h_vocabs := h_vocabs h;
     h_datasets :=
       alter (λ d, {| ds_captions := ds_captions d;
                      ds_images := ds_images d;
                      ds_length := ds_length d;
                      ds_tokenized_captions := ds_tokenized_captions d;
                      ds_vocab := Some vocab |}) l (h_datasets h);
     h_files := h_files h |}.

(** [dict[key]]. *)
Definition dict_get {V} (d : gmap string V) (key : string) : result V :=
  match d !! key with
  | Some v => Ok v
  | None => Raise (KeyError key)
  end.

Definition compute_joint_vocab (h : Heap) (self : DatasetCollection)
  : result Heap :=
  caps ← rmapM (λ kv : string * nat,
                   v ← deref_dataset h kv.2; Ok (ds_tokenized_captions v))
               (map_to_list (data_sets self));
  let caps := concat caps in
  let '(h, vocab) := build_vocabulary_in h caps in
  foldl (λ (r : result Heap) (i : string),
           h ← r;
           d ← dict_get (data_sets self) i;
           Ok (set_vocab h d vocab))
        (Ok h) (dict_keys (data_sets self)).

(** [random.choice(seq)], with [r] the number the generator draws. *)
Definition random_choice {A} (G : Globals) (r : nat) (l : list A) : result A :=
  _ ← global_random G;
  match l with
  | [] => Raise IndexError
  | _ => py_index l (r mod length l)
  end.

(** What the builtin [next] can be handed in [DatasetCollection.next]. *)
Inductive pyobj : Type :=
  | ObjDataset (l : nat)
  | ObjIter (name : string) (it : DataLoaderIter).

(** The builtin [next(obj)].  A dataset has [__getitem__] and [__len__]
    and no [next] method: it is no iterator. *)
Definition builtin_next (G : Globals) (h : Heap) (obj : pyobj)
  : option DataLoaderIter * result batch :=
  match obj with
  | ObjDataset _ => (None, Raise TypeError)
  | ObjIter _ it => let '(it, r) := DataLoaderIter_next G h it in (Some it, r)
  end.

(** Line 247: the key the call works on. *)
Definition next_key (G : Globals) (r : nat) (self : DatasetCollection)
  : result string :=
  random_choice G r (dict_keys (data_loaders self)).

(** Lines 248-255, for the key [k].  [iter] on a loader iterator returns
    the iterator itself. *)
Definition next_from (G : Globals) (h : Heap) (self : DatasetCollection)
    (k : string) : DatasetCollection * result batch :=
  match dict_get (data_sets self) k with
  | Raise e => (self, Raise e)
  | Ok loader =>
      match builtin_next G h (ObjDataset loader) with
      | (_, Raise StopIteration) =>
          match dict_get (data_loaders self) k with
          | Raise e => (self, Raise e)
          | Ok it =>
              let it := DataLoaderIter_iter it in
              let self := {| data_loaders := <[k := it]> (data_loaders self);
                             data_sets := data_sets self;
                             val_loaders := val_loaders self |} in
              let '(it, r) := DataLoaderIter_next G h it in
              ({| data_loaders := <[k := it]> (data_loaders self);
                  data_sets := data_sets self;
                  val_loaders := val_loaders self |}, r)
          end
      | (_, r) => (self, r)
      end
  end.

(** [DatasetCollection.next]. *)
Definition next (G : Globals) (r : nat) (h : Heap) (self : DatasetCollection)
  : DatasetCollection * result batch :=
  match next_key G r self with
  | Raise e => (self, Raise e)
  | Ok k => next_from G h self k
  end.

(** ** [get_loaders] (lines 258-268) *)

Definition get_loaders (fs : FileSystem) (data_sets_ : list string)
    (lang_prefix : bool) (downsample : Z) (batch_size : Z)
  : result (Heap * DatasetCollection) :=
  let data_loaders := DatasetCollection_init in
  '(h, data_loaders) ←
    foldl (λ (st : result (Heap * DatasetCollection)) (name : string),
             '(h, data_loaders) ← st;
             '(train_img, train_cap) ← load_data fs name "train" lang_prefix downsample;
             '(val_img, val_cap) ← load_data fs name "val" lang_prefix downsample;
             '(h, trainset) ← ImageCaptionDataset_init h train_cap train_img None;
             trainset_vocab ← ds_vocab <$> deref_dataset h trainset;
             '(h, valset) ← ImageCaptionDataset_init h val_cap val_img trainset_vocab;
             let data_loaders := add_trainset data_loaders name trainset batch_size in
             let data_loaders := add_valset data_loaders name valset batch_size in
             Ok (h, data_loaders))
          (Ok (empty_heap, data_loaders)) data_sets_;
  h ← compute_joint_vocab h data_loaders;
  Ok (h, data_loaders).

(** ** Definitions that follow the wording of the specification *)

(** The cleaning step of [tokenize] in the words of the specification:
    every character that is neither whitespace nor a word character, and
    every underscore, is deleted. *)
Definition spec_keep (c : ascii) : bool :=
  (re_space c || re_word c) && negb (bool_decide (c = "_"%char)).

Definition spec_delete (s : string) : string :=
  string_of_list_ascii (filter (λ c, spec_keep c) (list_ascii_of_string s)).

(** The files [read_coco] reads, and the captions it takes from the text
    of the caption file. *)
Definition coco_feature_path (data_path split : string) : string :=
  os_path_join (os_path_join data_path "imgfeats")
               (split +:+ "-resnet50-avgpool.npy").

Definition coco_caption_path (data_path split : string) : string :=
  os_path_join data_path (split +:+ "_captions.txt").

Definition coco_captions (content : string) : list string :=
  first_field <$> py_slice_to (-1) (str_split newline content).

(** The image indices [read_coco] keeps when it downsamples [n] images to
    [k]. *)
Definition coco_kept (n : nat) (k : Z) : list nat :=
  py_slice_to k (np_random_shuffle (np_arange (Z.of_nat n - 1))).

(** The lines [f.read().split('\n')[:-1]] takes from the text of a file. *)
Definition file_lines (content : string) : list string :=
  py_slice_to (-1) (str_split newline content).

(** The files [read_m30K] reads. *)
Definition m30k_split (split : string) : string :=
  if bool_decide (split = "test") then "test_2016" else split.

Definition m30k_feature_path (data_path split : string) : string :=
  os_path_join (data_path +:+ "/data/imgfeats/")
               (m30k_split split +:+ "-resnet50-avgpool.npy").

Definition m30k_caption_path (data_path lang split : string) (i : nat)
  : string :=
  data_path +:+
  os_path_join "/data/task2/tok/"
    (m30k_split split +:+ ".lc.norm.tok." +:+ pretty i +:+ "." +:+ lang).

(** The feature file [load_data] reads for a dataset name. *)
Definition feature_path (name split : string) : string :=
  if bool_decide (name = "coconumpy") then coco_feature_path COCO_PATH split
  else m30k_feature_path M30K_PATH split.

(** The value of [downsample] that takes effect in [load_data]: only
    ['coconumpy'] downsamples, and its ['val'] split always to 5000. *)
Definition effective_downsample (name split : string) (downsample : Z) : Z :=
  if bool_decide (name = "coconumpy") then
    if bool_decide (split = "val") then 5000 else downsample
  else 0.

(** The indices of the image vectors that are returned, in the order in
    which they are returned. *)
Definition kept_indices (n : nat) (k : Z) : list nat :=
  if bool_decide (k ≠ 0) then coco_kept n k else seq 0 n.

(** The keys that successive calls of [next] work on, [rs] being the
    numbers the generator draws; the collection is threaded through the
    calls. *)
Fixpoint next_keys (G : Globals) (h : Heap) (self : DatasetCollection)
    (rs : list nat) : list (result string) :=
  match rs with
  | [] => []
  | r :: rs' => next_key G r self :: next_keys G h (next G r h self).1 rs'
  end.

(** Round-robin order over one window of calls: every call selects a
    dataset, and the window selects every registered dataset once. *)
Definition round_robin_window (G : Globals) (h : Heap)
    (self : DatasetCollection) (rs : list nat) : Prop :=
  ∃ ks, next_keys G h self rs = Ok <$> ks
        ∧ ks ≡ₚ dict_keys (data_loaders self).

(** The tokenized captions of all training datasets of a collection, in
    the order in which the dictionary lists them. *)
Definition joint_captions (h : Heap) (self : DatasetCollection)
  : list (list string) :=
  concat ((λ kv : string * nat,
             default [] (ds_tokenized_captions <$> h_datasets h !! kv.2))
          <$> map_to_list (data_sets self)).

(** Mini-batches of a given size: none is empty or longer than the size,
    and all but the last have exactly the size. *)
Definition batches_of_size (batch_size : Z) (batches : list (list nat))
  : Prop :=
  ∀ i b, batches !! i = Some b →
    (0 < length b)%nat ∧ Z.of_nat (length b) ≤ batch_size
    ∧ (S i < length batches → Z.of_nat (length b) = batch_size)%nat.

(** * Properties *)

#[local] Arguments Nat.mul : simpl never.
#[local] Arguments Z.mul : simpl never.

(** Membership in a list that is written out. *)
Ltac elem_of_list :=
  repeat first [apply list_elem_of_here | apply list_elem_of_further].

(** ** The counter *)

Definition count_in (w : string) (l : list string) : nat :=
  length (filter (λ x, x = w) l).

Lemma count_in_app w l1 l2 :
  count_in w (l1 ++ l2) = (count_in w l1 + count_in w l2)%nat.
Proof. unfold count_in. by rewrite filter_app, length_app. Qed.

Lemma count_in_pos w l : w ∈ l ↔ (0 < count_in w l)%nat.
Proof.
  unfold count_in. split.
  - intros Hin. assert (Hf : w ∈ filter (λ x, x = w) l)
      by (apply list_elem_of_filter; done).
    destruct (filter (λ x, x = w) l); [by apply elem_of_nil in Hf | simpl; lia].
  - intros Hlen. destruct (filter (λ x, x = w) l) as [|y l'] eqn:E;
      [simpl in Hlen; lia |].
    assert (Hy : y ∈ filter (λ x, x = w) l) by (rewrite E; left).
    apply list_elem_of_filter in Hy as [-> ?]. done.
Qed.

(** What a counter holds after counting the words of [l]. *)
Definition counts (l : list string) (c : gmap string nat) : Prop :=
  ∀ w, c !! w = if decide (w ∈ l) then Some (count_in w l) else None.

Lemma counts_nil : counts [] ∅.
Proof. intros w. rewrite lookup_empty. case_decide as H; [by apply elem_of_nil in H | done]. Qed.

Lemma counts_snoc l c x :
  counts l c → counts (l ++ [x]) (<[x := S (default 0%nat (c !! x))]> c).
Proof.
  intros Hc w. rewrite count_in_app. unfold count_in at 2.
  rewrite filter_cons, filter_nil.
  destruct (decide (w ∈ l ++ [x])) as [Hin'|Hin'];
    destruct (decide (x = w)) as [->|Hne]; simpl.
  - rewrite lookup_insert_eq, Hc. destruct (decide (w ∈ l)) as [Hin|Hin]; simpl.
    + f_equal. lia.
    + f_equal. destruct (count_in w l) eqn:E; [done |].
      exfalso. apply Hin, count_in_pos. lia.
  - rewrite lookup_insert_ne by done. rewrite Hc.
    rewrite decide_True; [f_equal; lia |].
    apply elem_of_app in Hin' as [? | Hx%list_elem_of_singleton]; [done | congruence].
  - exfalso. apply Hin', elem_of_app. right. by apply list_elem_of_singleton.
  - rewrite lookup_insert_ne by done. rewrite Hc.
    rewrite decide_False; [done |].
    intros Hin. apply Hin', elem_of_app. by left.
Qed.

Lemma counts_update l c ws :
  counts l c → counts (l ++ ws) (Counter.update c ws).
Proof.
  revert l c. induction ws as [|x ws IH]; intros l c Hc.
  - by rewrite app_nil_r.
  - unfold Counter.update. simpl. change (x :: ws) with ([x] ++ ws).
    rewrite app_assoc. apply IH. by apply counts_snoc.
Qed.

Lemma counts_captions captions :
  counts (concat captions) (count_captions captions).
Proof.
  unfold count_captions.
  cut (∀ l c, counts l c →
         counts (l ++ concat captions) (foldl Counter.update c captions)).
  { intros H. apply (H [] ∅ counts_nil). }
  induction captions as [|cap captions IH]; intros l c Hc; simpl.
  - by rewrite app_nil_r.
  - rewrite app_assoc. apply IH. by apply counts_update.
Qed.

Lemma occurrences_count_in w captions :
  occurrences w captions = count_in w (concat captions).
Proof. done. Qed.

Lemma elem_of_frequent_words c t w :
  w ∈ frequent_words c t ↔ ∃ n : nat, c !! w = Some n ∧ t ≤ Z.of_nat n.
Proof.
  unfold frequent_words, Counter.items. rewrite list_elem_of_fmap. split.
  - intros [[w' n] [-> Hin]]. apply list_elem_of_filter in Hin as [Ht Hin].
    apply elem_of_map_to_list in Hin. eauto.
  - intros (n & Hn & Ht). exists (w, n). split; [done |].
    apply list_elem_of_filter. split; [done |]. by apply elem_of_map_to_list.
Qed.

(** ** Adding words *)

Lemma add_word_lookup_old w x v i :
  Vocab.word2idx v !! w = Some i →
  Vocab.word2idx (Vocab.add_word x v) !! w = Some i.
Proof.
  intros Hw. unfold Vocab.add_word.
  destruct (Vocab.word2idx v !! x) eqn:Hx; [done |]. simpl.
  rewrite lookup_insert_ne; [done | congruence].
Qed.

Lemma add_word_contains w x v :
  Vocab.contains (Vocab.add_word x v) w ↔ w = x ∨ Vocab.contains v w.
Proof.
  unfold Vocab.contains, Vocab.add_word.
  destruct (Vocab.word2idx v !! x) eqn:Hx; simpl.
  - split; [by right |]. intros [-> | H]; [by rewrite Hx | done].
  - destruct (decide (x = w)) as [->|Hne].
    + rewrite lookup_insert_eq. split; [by left | done].
    + rewrite lookup_insert_ne by done. split; [by right |].
      intros [-> | H]; done.
Qed.

Lemma add_words_lookup_old w ws v i :
  Vocab.word2idx v !! w = Some i →
  Vocab.word2idx (foldl (λ v w, Vocab.add_word w v) v ws) !! w = Some i.
Proof.
  revert v. induction ws as [|x ws IH]; intros v Hw; simpl; [done |].
  apply IH. by apply add_word_lookup_old.
Qed.

Lemma add_words_contains w ws v :
  Vocab.contains (foldl (λ v w, Vocab.add_word w v) v ws) w
  ↔ w ∈ ws ∨ Vocab.contains v w.
Proof.
  revert v. induction ws as [|x ws IH]; intros v; simpl.
  - split; [by right |]. intros [H | H]; [by apply elem_of_nil in H | done].
  - rewrite IH, add_word_contains, elem_of_cons. tauto.
Qed.

(** C1.  For all tokenised captions and every integer threshold,
    [build_vocabulary] returns a vocabulary in which the special tokens
    ['<pad>'], ['<start>'], ['<end>'] and ['<unk>'] were added first and in
    that order (they hold the indices 0, 1, 2 and 3), and which besides
    them contains exactly the words of the captions whose number of
    occurrences over all captions is at least the threshold. *)
Theorem build_vocabulary_spec (captions : list (list string)) (path : string)
    (threshold : Z) :
  let vocab := (build_vocabulary captions path threshold).1 in
  Vocab.word2idx vocab !! "<pad>" = Some 0%nat ∧
  Vocab.word2idx vocab !! "<start>" = Some 1%nat ∧
  Vocab.word2idx vocab !! "<end>" = Some 2%nat ∧
  Vocab.word2idx vocab !! "<unk>" = Some 3%nat ∧
  ∀ w, w ∉ special_tokens →
    (Vocab.contains vocab w ↔
     w ∈ concat captions ∧ threshold ≤ Z.of_nat (occurrences w captions)).
Proof.
  unfold build_vocabulary. simpl.
  split_and!; try (by apply add_words_lookup_old).
  intros w Hw. rewrite add_words_contains, elem_of_frequent_words.
  rewrite occurrences_count_in. split.
  - intros [(n & Hn & Ht) | Hsp].
    + rewrite counts_captions in Hn. case_decide; [| done].
      by injection Hn as <-.
    + exfalso. apply Hw.
      repeat (apply add_word_contains in Hsp as [-> | Hsp]);
        [unfold special_tokens; set_solver.. |].
      by destruct Hsp.
  - intros [Hin Ht]. left. exists (count_in w (concat captions)).
    rewrite counts_captions. by rewrite decide_True.
Qed.

(** ** [tokenize] *)

Lemma spec_keep_group c : spec_keep c = negb (re_group c).
Proof.
  unfold spec_keep, re_group.
  destruct (re_space c || re_word c), (bool_decide (c = "_"%char)); done.
Qed.

Lemma re_match_run_rest l :
  filter (λ c, spec_keep c) (re_match_run l).2 = filter (λ c, spec_keep c) l
  ∧ (length (re_match_run l).2 ≤ length l)%nat.
Proof.
  induction l as [|c l [IH1 IH2]]; simpl; [done |].
  destruct (re_group c) eqn:Hc.
  - destruct (re_match_run l) as [run rest]; simpl in *.
    rewrite filter_cons_False; [split; [done | lia] |].
    rewrite spec_keep_group, Hc. simpl. tauto.
  - simpl. split; [done | lia].
Qed.

Lemma re_match_run_nil c l run rest :
  re_match_run (c :: l) = (run, rest) →
  (run = [] ∧ re_group c = false) ∨
  (run ≠ [] ∧ re_group c = true ∧ rest = (re_match_run l).2).
Proof.
  simpl. destruct (re_group c).
  - destruct (re_match_run l) as [run' rest']. intros [= <- <-]. right. done.
  - intros [= <- <-]. by left.
Qed.

Lemma re_sub_scan_filter fuel l :
  (length l ≤ fuel)%nat →
  re_sub_scan fuel l = filter (λ c, spec_keep c) l.
Proof.
  revert l. induction fuel as [|fuel IH]; intros l Hlen.
  - destruct l; [done | simpl in Hlen; lia].
  - destruct l as [|c l]; [done |].
    cbn [re_sub_scan]. simpl in Hlen.
    destruct (re_match_run (c :: l)) as [run rest] eqn:Hrun.
    apply re_match_run_nil in Hrun as [[-> Hc] | (Hne & Hc & ->)].
    + rewrite filter_cons_True by (rewrite spec_keep_group, Hc; done).
      f_equal. apply IH. lia.
    + destruct run; [done |].
      rewrite filter_cons_False by (rewrite spec_keep_group, Hc; simpl; tauto).
      destruct (re_match_run_rest l) as [Hf Hl].
      rewrite <- Hf. apply IH. lia.
Qed.

(** The scan that models [re.sub] deletes exactly the characters the
    specification names. *)
Lemma re_sub_spec_delete s : re_sub s = spec_delete s.
Proof. unfold re_sub, spec_delete. by rewrite re_sub_scan_filter. Qed.

Lemma spec_keep_ascii c : spec_keep c = true → (nat_of_ascii c < 128)%nat.
Proof.
  unfold spec_keep, re_space, re_word. intros H.
  apply andb_true_iff in H as [H _]. apply orb_true_iff in H as [H | H];
    apply bool_decide_eq_true in H; lia.
Qed.

Lemma lower_char_ascii c :
  (nat_of_ascii c < 128)%nat → (nat_of_ascii (lower_char c) < 128)%nat.
Proof.
  unfold lower_char. intros H. case_bool_decide as Hc; [| done].
  rewrite nat_ascii_embedding; lia.
Qed.

Lemma utf8_valid_bytes_ascii fuel l :
  (length l ≤ fuel)%nat → Forall (λ b, b < 128)%nat l →
  utf8_valid_bytes fuel l = true.
Proof.
  revert l. induction fuel as [|fuel IH]; intros l Hlen Hall.
  - destruct l; [done | simpl in Hlen; lia].
  - destruct l as [|b l]; [done |]. simpl in *.
    apply Forall_cons in Hall as [Hb Hall].
    rewrite bool_decide_eq_true_2 by done. apply IH; [lia | done].
Qed.

Lemma str_decode_utf8_clean s :
  str_decode_utf8 (str_lower (spec_delete s)) = Ok (str_lower (spec_delete s)).
Proof.
  unfold str_decode_utf8, utf8_valid, str_lower, spec_delete.
  rewrite !list_ascii_of_string_of_list_ascii.
  rewrite utf8_valid_bytes_ascii; [done.. |].
  rewrite <- list_fmap_compose. apply Forall_fmap, Forall_forall.
  intros c Hc. simpl. apply lower_char_ascii, spec_keep_ascii.
  apply list_elem_of_filter in Hc as [Hc _]. by apply Is_true_true.
Qed.

(** C5.  For every byte string [s], [tokenize s] returns a token list: the
    NLTK word tokenisation of the lowercased string that is left of [s]
    after every character that is neither whitespace nor a word character,
    and every underscore, has been deleted. *)
Theorem tokenize_spec (s : string) :
  tokenize s = Ok (word_tokenize (str_lower (spec_delete s))).
Proof.
  unfold tokenize. rewrite re_sub_spec_delete.
  by rewrite str_decode_utf8_clean.
Qed.

(** ** Which exceptions the readers raise *)

(** [r] raises nothing but exceptions in [P]. *)
Definition raises_only {A} (P : exn → Prop) (r : result A) : Prop :=
  match r with
  | Ok _ => True
  | Raise e => P e
  end.

Lemma raises_only_bind {A B} P (r : result A) (k : A → result B) :
  raises_only P r → (∀ a, raises_only P (k a)) → raises_only P (r ≫= k).
Proof. destruct r; simpl; [intros _ H; apply H | done]. Qed.

Lemma raises_only_fmap {A B} P (r : result A) (f : A → B) :
  raises_only P r → raises_only P (f <$> r).
Proof. by destruct r. Qed.

Lemma raises_only_rmapM {A B} P (f : A → result B) l :
  (∀ a, raises_only P (f a)) → raises_only P (rmapM f l).
Proof.
  intros Hf. induction l as [|x l IH]; simpl; [done |].
  apply raises_only_bind; [done |]. intros y.
  apply raises_only_bind; [done |]. done.
Qed.

(** What the two readers can raise: a missing file, or an index out of
    range. *)
Definition reader_exn (e : exn) : Prop :=
  (∃ p, e = IOError p) ∨ e = IndexError.

Lemma open_read_raises fs p : raises_only reader_exn (open_read fs p).
Proof. unfold open_read. destruct (fs_text fs p); simpl; [done | left; eauto]. Qed.

Lemma np_load_raises fs p : raises_only reader_exn (np_load fs p).
Proof. unfold np_load. destruct (fs_npy fs p); simpl; [done | left; eauto]. Qed.

Lemma py_index_raises {A} (l : list A) i : raises_only reader_exn (py_index l i).
Proof. unfold py_index. destruct (l !! i); simpl; [done | by right]. Qed.

Lemma read_m30K_raises fs data_path lang split lp :
  raises_only reader_exn (read_m30K fs data_path lang split lp).
Proof.
  unfold read_m30K. apply raises_only_bind.
  { apply raises_only_fmap, np_load_raises. }
  intros vs. apply raises_only_bind; [| done].
  apply raises_only_rmapM. intros i.
  apply raises_only_bind; [apply open_read_raises | done].
Qed.

Lemma coco_downsample_raises vs caps k :
  raises_only reader_exn (coco_downsample vs caps k).
Proof.
  unfold coco_downsample, np_take.
  apply raises_only_bind; [apply raises_only_rmapM, py_index_raises |].
  intros vs'. apply raises_only_bind; [apply raises_only_rmapM, py_index_raises |].
  done.
Qed.

Lemma read_coco_raises fs data_path split lp k :
  raises_only reader_exn (read_coco fs data_path split lp k).
Proof.
  unfold read_coco. apply raises_only_bind.
  { apply raises_only_fmap, np_load_raises. }
  intros vs. apply raises_only_bind; [apply open_read_raises |].
  intros content. apply raises_only_bind.
  - case_bool_decide; [apply coco_downsample_raises | done].
  - by intros [??].
Qed.

Lemma reader_exn_not_implemented {A} (r : result A) :
  raises_only reader_exn r → r ≠ Raise NotImplementedError.
Proof. intros H ->. simpl in H. destruct H as [[p ?] | ?]; done. Qed.

(** ** [load_data] *)

(** C9.  [load_data] raises [NotImplementedError] if and only if [name] is
    none of ['coconumpy'], ['m30ken'] and ['m30kde']; and for ['coconumpy']
    with the split ['val'] the data is read with [downsample] set to 5000,
    whatever the caller passed. *)
Theorem load_data_not_implemented (fs : FileSystem) (name split : string)
    (lang_prefix : bool) (downsample : Z) :
  (load_data fs name split lang_prefix downsample = Raise NotImplementedError
   ↔ name ∉ ["coconumpy"; "m30ken"; "m30kde"])
  ∧ load_data fs "coconumpy" "val" lang_prefix downsample
    = read_coco fs COCO_PATH "val" lang_prefix 5000.
Proof.
  split; [| done]. unfold load_data.
  destruct (decide (name = "coconumpy")) as [-> | Hcoco].
  { rewrite bool_decide_eq_true_2 by done. split; [| intros Hn; exfalso; apply Hn; elem_of_list].
    intros H. by apply reader_exn_not_implemented in H; [| apply read_coco_raises]. }
  rewrite (bool_decide_eq_false_2 (name = "coconumpy")) by done.
  destruct (decide (name = "m30ken")) as [-> | Hen].
  { rewrite bool_decide_eq_true_2 by done. split; [| intros Hn; exfalso; apply Hn; elem_of_list].
    intros H. by apply reader_exn_not_implemented in H; [| apply read_m30K_raises]. }
  rewrite (bool_decide_eq_false_2 (name = "m30ken")) by done.
  destruct (decide (name = "m30kde")) as [-> | Hde].
  { rewrite bool_decide_eq_true_2 by done. split; [| intros Hn; exfalso; apply Hn; elem_of_list].
    intros H. by apply reader_exn_not_implemented in H; [| apply read_m30K_raises]. }
  rewrite (bool_decide_eq_false_2 (name = "m30kde")) by done.
  split; [| done]. intros _ Hin.
  repeat (apply elem_of_cons in Hin as [? | Hin]; [done |]).
  by apply elem_of_nil in Hin.
Qed.

(** ** Loops in the result monad *)

Lemma rmapM_Ok {A B} (f : A → result B) l r :
  rmapM f l = Ok r → Forall2 (λ x y, f x = Ok y) l r.
Proof.
  revert r. induction l as [|x l IH]; intros r; simpl.
  - intros [= <-]. constructor.
  - destruct (f x) as [y|] eqn:Hx; simpl; [| done].
    destruct (rmapM f l) as [ys|] eqn:Hl; simpl; [| done].
    intros [= <-]. constructor; [done | by apply IH].
Qed.

Lemma rmapM_total {A B} (f : A → result B) l :
  Forall (λ x, ∃ y, f x = Ok y) l → ∃ r, rmapM f l = Ok r.
Proof.
  induction 1 as [|x l [y Hy] _ [r IH]]; simpl; [by eexists |].
  rewrite Hy, IH. simpl. by eexists.
Qed.

Lemma rmapM_pure {A B} (f : A → result B) (g : A → B) l :
  (∀ x, x ∈ l → f x = Ok (g x)) → rmapM f l = Ok (g <$> l).
Proof.
  induction l as [|x l IH]; intros Hf; [done |].
  cbn [rmapM]. rewrite (Hf x) by apply list_elem_of_here.
  rewrite IH by (intros ??; apply Hf; by apply list_elem_of_further). done.
Qed.

Lemma np_take_lookup {A} (a : list A) inds r i x :
  np_take a inds = Ok r → inds !! i = Some x → r !! i = a !! x ∧ is_Some (a !! x).
Proof.
  intros Hr Hi. apply rmapM_Ok in Hr.
  destruct (Forall2_lookup_l _ _ _ _ _ Hr Hi) as (y & Hy & Hf).
  unfold py_index in Hf. destruct (a !! x) eqn:Hx; [| done].
  injection Hf as ->. by rewrite Hy.
Qed.

Lemma np_take_length {A} (a : list A) inds r :
  np_take a inds = Ok r → length r = length inds.
Proof. intros Hr. apply rmapM_Ok in Hr. symmetry. by eapply Forall2_length. Qed.

Lemma np_take_total {A} (a : list A) inds :
  Forall (λ x, x < length a)%nat inds → ∃ r, np_take a inds = Ok r.
Proof.
  intros H. apply rmapM_total. eapply Forall_impl; [exact H |].
  intros x Hx. simpl in Hx. unfold py_index.
  destruct (lookup_lt_is_Some_2 a x Hx) as [y ->]. by eexists.
Qed.

(** ** Lists made of chunks of one length *)

Lemma length_concat_fixed {A B} (f : A → list B) k l :
  (∀ x, length (f x) = k) → length (concat (f <$> l)) = (k * length l)%nat.
Proof.
  intros Hf. induction l as [|x l IH]; csimpl; [lia |].
  rewrite length_app, Hf, IH. lia.
Qed.

Lemma lookup_concat_fixed {A B} (f : A → list B) k l i j :
  (∀ x, length (f x) = k) → (j < k)%nat →
  concat (f <$> l) !! (k * i + j)%nat = l !! i ≫= λ x, f x !! j.
Proof.
  intros Hf Hj. revert i. induction l as [|x l IH]; intros i; csimpl; [done |].
  destruct i as [|i]; csimpl.
  - rewrite lookup_app_l by (rewrite Hf; lia).
    by replace (k * 0 + j)%nat with j by lia.
  - rewrite lookup_app_r by (rewrite Hf; lia). rewrite Hf.
    replace (k * S i + j - k)%nat with (k * i + j)%nat by lia. apply IH.
Qed.

Lemma elem_of_concat {A} (x : A) (ls : list (list A)) :
  x ∈ concat ls ↔ ∃ l, x ∈ l ∧ l ∈ ls.
Proof.
  induction ls as [|l ls IH]; simpl.
  - split; [by intros ?%elem_of_nil | by intros (? & _ & ?%elem_of_nil)].
  - rewrite elem_of_app, IH. split.
    + intros [H | (l' & ? & ?)]; [exists l | exists l']; split; try done;
        [apply list_elem_of_here | by apply list_elem_of_further].
    + intros (l' & Hx & [-> | Hl]%elem_of_cons); [by left | right; eauto].
Qed.

Lemma np_repeat_lookup {A} (a : list A) i j :
  (j < 5)%nat → np_repeat 5 a !! (5 * i + j)%nat = a !! i.
Proof.
  intros Hj. unfold np_repeat.
  rewrite (lookup_concat_fixed (replicate 5) 5) by (done || apply length_replicate).
  destruct (a !! i) as [y|]; [| done].
  change ((Some y ≫= λ x, replicate 5 x !! j)) with (replicate 5 y !! j).
  by apply lookup_replicate_2.
Qed.

Lemma np_repeat_length {A} (a : list A) :
  length (np_repeat 5 a) = (5 * length a)%nat.
Proof. unfold np_repeat. apply length_concat_fixed, length_replicate. Qed.

Lemma caption_indices_lookup inds i j x :
  inds !! i = Some x → (j < 5)%nat →
  concat ((λ x, np_arange2 (x * 5) (x * 5 + 5)) <$> inds) !! (5 * i + j)%nat
  = Some (5 * x + j)%nat.
Proof.
  intros Hi Hj.
  rewrite (lookup_concat_fixed _ 5); [| | done].
  - rewrite Hi. simpl. unfold np_arange2.
    replace (x * 5 + 5 - x * 5)%nat with 5%nat by lia.
    rewrite lookup_seq_lt by done. f_equal. lia.
  - intros y. unfold np_arange2. rewrite length_seq. lia.
Qed.

(** ** Downsampling in [read_coco] *)

Lemma coco_downsample_Ok vs caps k vs' caps' :
  coco_downsample vs caps k = Ok (vs', caps') →
  let kept := coco_kept (length vs) k in
  length vs' = length kept ∧ length caps' = (5 * length kept)%nat ∧
  ∀ i x j, kept !! i = Some x → (j < 5)%nat →
    vs' !! i = vs !! x ∧ is_Some (vs !! x) ∧
    caps' !! (5 * i + j)%nat = caps !! (5 * x + j)%nat ∧
    is_Some (caps !! (5 * x + j)%nat).
Proof.
  unfold coco_downsample. fold (coco_kept (length vs) k).
  set (kept := coco_kept (length vs) k). intros H. cbv zeta. fold kept.
  destruct (np_take vs kept) as [vs1|] eqn:Hvs; simpl in H; [| done].
  destruct (np_take caps _) as [caps1|] eqn:Hcaps; simpl in H; [| done].
  injection H as <- <-. split_and!.
  - by eapply np_take_length.
  - erewrite np_take_length by done.
    apply (length_concat_fixed (λ x, np_arange2 (x * 5) (x * 5 + 5))).
    intros y. unfold np_arange2. rewrite length_seq. lia.
  - intros i x j Hi Hj.
    destruct (np_take_lookup _ _ _ _ _ Hvs Hi) as [-> Hx].
    pose proof (caption_indices_lookup _ _ _ _ Hi Hj) as Hc.
    destruct (np_take_lookup _ _ _ _ _ Hcaps Hc) as [-> Hy]. done.
Qed.

Lemma coco_downsample_total vs caps k :
  Forall (λ x, x < length vs ∧ 5 * x + 4 < length caps)%nat
         (coco_kept (length vs) k) →
  ∃ vs' caps', coco_downsample vs caps k = Ok (vs', caps').
Proof.
  intros Hk. unfold coco_downsample. fold (coco_kept (length vs) k).
  set (kept := coco_kept (length vs) k) in *.
  destruct (np_take_total vs kept) as [vs' ->].
  { eapply Forall_impl; [exact Hk |]. simpl. lia. }
  destruct (np_take_total caps
              (concat ((λ x, np_arange2 (x * 5) (x * 5 + 5)) <$> kept)))
    as [caps' ->]; [| simpl; eauto].
  apply Forall_forall. intros y Hy.
  apply elem_of_concat in Hy as (c & Hy & Hc).
  apply list_elem_of_fmap in Hc as (x & -> & Hx).
  rewrite Forall_forall in Hk. specialize (Hk x Hx).
  unfold np_arange2 in Hy. apply elem_of_seq in Hy. lia.
Qed.

Section Downsample.

(** [np.random.shuffle] permutes the array. *)
Hypothesis shuffle_permutes : ∀ l, np_random_shuffle l ≡ₚ l.

Lemma coco_kept_props (n : nat) (k : Z) :
  0 < k ≤ Z.of_nat n - 1 →
  length (coco_kept n k) = Z.to_nat k
  ∧ NoDup (coco_kept n k)
  ∧ Forall (λ x, x < n - 1)%nat (coco_kept n k).
Proof.
  intros Hk. unfold coco_kept, py_slice_to, np_arange.
  rewrite bool_decide_eq_true_2 by lia.
  set (a := np_random_shuffle _).
  assert (Ha : a ≡ₚ seq 0 (Z.to_nat (Z.of_nat n - 1))) by apply shuffle_permutes.
  assert (Hlen : length a = Z.to_nat (Z.of_nat n - 1))
    by (rewrite Ha, length_seq; done).
  split_and!.
  - rewrite length_take. lia.
  - eapply sublist_NoDup; [| apply sublist_take]. rewrite Ha. apply NoDup_seq.
  - apply Forall_take. rewrite Ha. apply Forall_forall.
    intros x Hx. apply elem_of_seq in Hx. lia.
Qed.

(** C10.  When [read_coco] is called with [downsample] a positive integer
    [k], at most [n - 1] for [n] image vectors in the feature file: the [k]
    kept image indices are distinct and all below [n - 1], so that the last
    vector is never kept; the call returns whenever the caption file has
    the captions of the first [n - 1] images; and what it returns are
    exactly [5 * k] images and [5 * k] captions, where positions
    [5 * i .. 5 * i + 4] hold the [i]-th kept image vector and its five
    captions, the ones at [5 * x .. 5 * x + 4] of the file for the kept
    index [x]. *)
Theorem read_coco_downsample (fs : FileSystem) (data_path split : string)
    (lang_prefix : bool) (k : Z) (vectors : list (list float))
    (content : string) :
  fs_npy fs (coco_feature_path data_path split) = Some vectors →
  fs_text fs (coco_caption_path data_path split) = Some content →
  0 < k ≤ Z.of_nat (length vectors) - 1 →
  let n := length vectors in
  let kept := coco_kept n k in
  let caps := coco_captions content in
  (length kept = Z.to_nat k ∧ NoDup kept ∧ Forall (λ x, x < n - 1)%nat kept)
  ∧ ((5 * (n - 1) ≤ length caps)%nat →
     ∃ images captions,
       read_coco fs data_path split lang_prefix k = Ok (images, captions))
  ∧ ∀ images captions,
      read_coco fs data_path split lang_prefix k = Ok (images, captions) →
      length images = (5 * Z.to_nat k)%nat
      ∧ length captions = (5 * Z.to_nat k)%nat
      ∧ ∀ i x j, kept !! i = Some x → (j < 5)%nat →
          images !! (5 * i + j)%nat = astype vectors !! x
          ∧ is_Some (astype vectors !! x)
          ∧ captions !! (5 * i + j)%nat = caps !! (5 * x + j)%nat
          ∧ is_Some (caps !! (5 * x + j)%nat).
Proof.
  intros Hnpy Htxt Hk n kept caps. subst kept.
  destruct (coco_kept_props n k Hk) as (Hlen & Hnd & Hlt).
  assert (Hread : read_coco fs data_path split lang_prefix k
                  = '(vs, cs) ← coco_downsample (astype vectors) caps k;
                    Ok (np_repeat 5 vs, cs)).
  { unfold read_coco, np_load, open_read.
    fold (coco_feature_path data_path split).
    fold (coco_caption_path data_path split).
    rewrite Hnpy. simpl. rewrite Htxt. simpl.
    rewrite bool_decide_eq_true_2 by lia.
    rewrite app_nil_r. fold (coco_captions content). done. }
  assert (Hn : length (astype vectors) = n)
    by (unfold astype; apply length_map).
  split_and!; [done.. | |].
  - intros Hcaps. rewrite Hread.
    destruct (coco_downsample_total (astype vectors) caps k) as (vs & cs & ->).
    { rewrite Hn. eapply Forall_impl; [exact Hlt |]. simpl. lia. }
    simpl. eauto.
  - intros images captions. rewrite Hread.
    destruct (coco_downsample _ _ _) as [[vs cs]|] eqn:Hd; simpl; [| done].
    intros [= <- <-]. apply coco_downsample_Ok in Hd. rewrite Hn in Hd.
    destruct Hd as (Hvs & Hcs & Hpos).
    rewrite np_repeat_length, Hvs, Hcs, Hlen. split_and!; [done.. |].
    intros i x j Hi Hj. rewrite np_repeat_lookup by done.
    destruct (Hpos i x j Hi Hj) as (-> & ? & -> & ?). done.
Qed.

Lemma coco_kept_sub (n : nat) (k : Z) :
  NoDup (coco_kept n k) ∧ Forall (λ x, x < n - 1)%nat (coco_kept n k).
Proof.
  unfold coco_kept, np_arange.
  set (a := np_random_shuffle _).
  assert (Ha : a ≡ₚ seq 0 (Z.to_nat (Z.of_nat n - 1))) by apply shuffle_permutes.
  assert (Hsub : ∃ m, py_slice_to k a = take m a).
  { unfold py_slice_to. case_bool_decide; eauto. }
  destruct Hsub as [m ->]. split.
  - eapply sublist_NoDup; [| apply sublist_take]. rewrite Ha. apply NoDup_seq.
  - apply Forall_take. rewrite Ha. apply Forall_forall.
    intros x Hx. apply elem_of_seq in Hx. lia.
Qed.

Lemma kept_indices_props (n : nat) (k : Z) :
  NoDup (kept_indices n k)
  ∧ Forall (λ x, x < n)%nat (kept_indices n k)
  ∧ (k ≠ 0 → Forall (λ x, x < n - 1)%nat (kept_indices n k)).
Proof.
  unfold kept_indices. destruct (coco_kept_sub n k) as [Hnd Hlt].
  case_bool_decide as Hk.
  - split_and!; [done | | done].
    eapply Forall_impl; [exact Hlt |]. simpl. lia.
  - split_and!; [apply NoDup_seq | | done].
    apply Forall_forall. intros x Hx. apply elem_of_seq in Hx. lia.
Qed.

(** ** What [read_coco] and [read_m30K] return *)

Lemma read_coco_Ok fs data_path split lp k images captions :
  read_coco fs data_path split lp k = Ok (images, captions) →
  ∃ vectors0 content,
    fs_npy fs (coco_feature_path data_path split) = Some vectors0
    ∧ fs_text fs (coco_caption_path data_path split) = Some content
    ∧ let vectors := astype vectors0 in
      let kept := kept_indices (length vectors) k in
      length images = (5 * length kept)%nat
      ∧ (∀ i x j, kept !! i = Some x → (j < 5)%nat →
           images !! (5 * i + j)%nat = vectors !! x
           ∧ captions !! (5 * i + j)%nat
             = coco_captions content !! (5 * x + j)%nat)
      ∧ (k = 0 → captions = coco_captions content)
      ∧ (k ≠ 0 → length captions = length images).
Proof.
  unfold read_coco, np_load, open_read.
  fold (coco_feature_path data_path split).
  fold (coco_caption_path data_path split).
  destruct (fs_npy fs _) as [vectors0|]; simpl; [| done].
  destruct (fs_text fs _) as [content|]; simpl; [| done].
  rewrite app_nil_r. fold (coco_captions content).
  intros H. exists vectors0, content. split; [done |]. split; [done |].
  cbv zeta. unfold kept_indices. case_bool_decide as Hk; simpl in H.
  - destruct (coco_downsample _ _ _) as [[vs cs]|] eqn:Hd; simpl in H; [| done].
    injection H as <- <-. apply coco_downsample_Ok in Hd.
    destruct Hd as (Hvs & Hcs & Hpos).
    rewrite np_repeat_length, Hvs, Hcs. split_and!; [done | | done..].
    intros i x j Hi Hj. rewrite np_repeat_lookup by done.
    destruct (Hpos i x j Hi Hj) as (-> & ? & -> & ?). done.
  - injection H as <- <-. rewrite np_repeat_length, length_seq.
    split_and!; [done | | done | done].
    intros i x j Hi Hj. apply lookup_seq in Hi as [-> _].
    by rewrite np_repeat_lookup.
Qed.

Lemma read_m30K_unfold fs data_path lang split lp :
  read_m30K fs data_path lang split lp
  = (image_vectors ← astype <$> np_load fs (m30k_feature_path data_path split);
     caps ← rmapM (λ i : nat,
               content ← open_read fs (m30k_caption_path data_path lang split i);
               Ok (file_lines content)) (seq 1 5);
     Ok (np_repeat 5 image_vectors, concat caps)).
Proof. reflexivity. Qed.

Lemma read_m30K_Ok fs data_path lang split lp images captions :
  read_m30K fs data_path lang split lp = Ok (images, captions) →
  ∃ vectors0 files,
    fs_npy fs (m30k_feature_path data_path split) = Some vectors0
    ∧ Forall2 (λ i f, ∃ content,
                 fs_text fs (m30k_caption_path data_path lang split i)
                 = Some content ∧ f = file_lines content) (seq 1 5) files
    ∧ length images = (5 * length (astype vectors0))%nat
    ∧ (∀ i j, (j < 5)%nat →
         images !! (5 * i + j)%nat = astype vectors0 !! i)
    ∧ length captions = sum_list (length <$> files).
Proof.
  rewrite read_m30K_unfold. unfold np_load.
  destruct (fs_npy fs _) as [vectors0|]; [| done].
  change (astype <$> Ok vectors0) with (Ok (astype vectors0)).
  set (loop := rmapM _ _).
  change (Ok (astype vectors0) ≫= _)
    with (caps ← loop; Ok (np_repeat 5 (astype vectors0), concat caps)).
  destruct loop as [files|] eqn:Hfiles; [| done].
  intros [= <- <-]. exists vectors0, files. split_and!.
  - done.
  - subst loop. apply rmapM_Ok in Hfiles. eapply Forall2_impl; [exact Hfiles |].
    intros i f. unfold open_read.
    destruct (fs_text fs _) as [content|]; [| done].
    intros [= <-]. by exists content.
  - apply np_repeat_length.
  - intros i j Hj. by apply np_repeat_lookup.
  - clear. induction files as [|f files IH]; simpl; [done |].
    rewrite length_app, IH. done.
Qed.

(** The layout of what [load_data] returns.  For every successful call
    of [load_data]: the images returned are the kept image vectors of the
    feature file, each at five
    consecutive positions ([images[5 * i + j]] is the [i]-th kept vector
    for [j < 5]); all vectors are kept, in the order of the file, unless
    the call downsamples, which only ['coconumpy'] does (and always for
    its split ['val']), and then the kept vectors are distinct ones among
    all but the last of the file, and the captions are as many as the
    images.  For ['coconumpy'] the captions at [5 * i .. 5 * i + 4] are the
    lines [5 * x .. 5 * x + 4] of the caption file, [x] being the index of
    the [i]-th kept vector, and without downsampling the captions are all
    lines of the file; for the Multi30K names the captions are as many as
    the five caption files have lines.  (So without downsampling images
    and captions have equal length exactly when the caption files hold
    five lines for every image vector.) *)
Theorem load_data_layout (fs : FileSystem) (name split : string)
    (lang_prefix : bool) (downsample : Z) (images : list (list float))
    (captions : list string) :
  load_data fs name split lang_prefix downsample = Ok (images, captions) →
  ∃ vectors0,
    fs_npy fs (feature_path name split) = Some vectors0
    ∧ let vectors := astype vectors0 in
      let k := effective_downsample name split downsample in
      let kept := kept_indices (length vectors) k in
      NoDup kept
      ∧ Forall (λ x, x < length vectors)%nat kept
      ∧ (k ≠ 0 → Forall (λ x, x < length vectors - 1)%nat kept)
      ∧ length images = (5 * length kept)%nat
      ∧ (∀ i x j, kept !! i = Some x → (j < 5)%nat →
           images !! (5 * i + j)%nat = vectors !! x)
      ∧ (k ≠ 0 → length captions = length images)
      ∧ (name = "coconumpy" →
         ∃ content,
           fs_text fs (coco_caption_path COCO_PATH split) = Some content
           ∧ (k = 0 → captions = coco_captions content)
           ∧ ∀ i x j, kept !! i = Some x → (j < 5)%nat →
               captions !! (5 * i + j)%nat
               = coco_captions content !! (5 * x + j)%nat)
      ∧ (name ≠ "coconumpy" →
         ∃ lang files,
           (name = "m30ken" ∧ lang = "en" ∨ name = "m30kde" ∧ lang = "de")
           ∧ Forall2 (λ i f, ∃ content,
                        fs_text fs (m30k_caption_path M30K_PATH lang split i)
                        = Some content ∧ f = file_lines content)
                     (seq 1 5) files
           ∧ length captions = sum_list (length <$> files)).
Proof.
  unfold load_data, feature_path, effective_downsample.
  destruct (decide (name = "coconumpy")) as [-> | Hcoco].
  - rewrite !bool_decide_eq_true_2 by done.
    set (k := if bool_decide (split = "val") then 5000 else downsample).
    intros H. apply read_coco_Ok in H as (vectors0 & content & Hnpy & Htxt & H).
    exists vectors0. split; [done |]. cbv zeta in *.
    destruct H as (Hlen & Hpos & Hall & Heq).
    destruct (kept_indices_props (length (astype vectors0)) k) as (? & ? & ?).
    split_and!; [done.. | | done | | done].
    + intros i x j Hi Hj. by destruct (Hpos i x j Hi Hj).
    + intros _. exists content. split_and!; [done.. |].
      intros i x j Hi Hj. by destruct (Hpos i x j Hi Hj).
  - rewrite !(bool_decide_eq_false_2 (name = "coconumpy")) by done.
    assert (Hm : ∀ lang,
      read_m30K fs M30K_PATH lang split lang_prefix = Ok (images, captions) →
      (name = "m30ken" ∧ lang = "en" ∨ name = "m30kde" ∧ lang = "de") →
      ∃ vectors0,
        fs_npy fs (m30k_feature_path M30K_PATH split) = Some vectors0
        ∧ NoDup (kept_indices (length (astype vectors0)) 0)
        ∧ Forall (λ x, x < length (astype vectors0))%nat
                 (kept_indices (length (astype vectors0)) 0)
        ∧ (0 ≠ 0 → Forall (λ x, x < length (astype vectors0) - 1)%nat
                 (kept_indices (length (astype vectors0)) 0))
        ∧ length images
          = (5 * length (kept_indices (length (astype vectors0)) 0))%nat
        ∧ (∀ i x j, kept_indices (length (astype vectors0)) 0 !! i = Some x →
             (j < 5)%nat → images !! (5 * i + j)%nat = astype vectors0 !! x)
        ∧ (0 ≠ 0 → length captions = length images)
        ∧ (name = "coconumpy" →
           ∃ content,
             fs_text fs (coco_caption_path COCO_PATH split) = Some content
             ∧ (0 = 0 → captions = coco_captions content)
             ∧ ∀ i x j, kept_indices (length (astype vectors0)) 0 !! i = Some x →
                 (j < 5)%nat →
                 captions !! (5 * i + j)%nat
                 = coco_captions content !! (5 * x + j)%nat)
        ∧ (name ≠ "coconumpy" →
           ∃ lang files,
             (name = "m30ken" ∧ lang = "en" ∨ name = "m30kde" ∧ lang = "de")
             ∧ Forall2 (λ i f, ∃ content,
                          fs_text fs (m30k_caption_path M30K_PATH lang split i)
                          = Some content ∧ f = file_lines content)
                       (seq 1 5) files
             ∧ length captions = sum_list (length <$> files))).
    { intros lang H Hlang.
      apply read_m30K_Ok in H as (vectors0 & files & Hnpy & Hfiles & Hlen & Hpos & Hcap).
      exists vectors0. split; [done |].
      destruct (kept_indices_props (length (astype vectors0)) 0) as (? & ? & ?).
      unfold kept_indices in *. rewrite bool_decide_eq_false_2 in * by lia.
      rewrite length_seq. split_and!; [done.. | | done | done |].
      - intros i x j Hi Hj. apply lookup_seq in Hi as [-> _]. by apply Hpos.
      - intros _. exists lang, files. done. }
    case_bool_decide as Hen; [intros H; apply (Hm "en" H); by left |].
    case_bool_decide as Hde; [intros H; apply (Hm "de" H); by right |].
    done.
Qed.

End Downsample.

(** ** [collate_fn] *)

Lemma insert_desc_perm {A} (key : A → nat) x l :
  insert_desc key x l ≡ₚ x :: l.
Proof.
  induction l as [|y l IH]; simpl; [done |].
  case_bool_decide; [| done]. rewrite IH. apply Permutation_swap.
Qed.

Lemma py_sort_desc_perm {A} (key : A → nat) l : py_sort_desc key l ≡ₚ l.
Proof.
  induction l as [|x l IH]; simpl; [done |].
  rewrite insert_desc_perm. by rewrite IH.
Qed.

Lemma py_sort_desc_nil {A} (key : A → nat) l :
  py_sort_desc key l = [] ↔ l = [].
Proof.
  split; [| by intros ->]. intros H.
  apply Permutation_nil_r. rewrite <- H. symmetry. apply py_sort_desc_perm.
Qed.

(** *** What [collate_fn] computes where [torch] is bound *)

Lemma insert_desc_sorted {A} (key : A → nat) x l :
  StronglySorted (λ a b, key b ≤ key a)%nat l →
  StronglySorted (λ a b, key b ≤ key a)%nat (insert_desc key x l).
Proof.
  induction 1 as [|y l Hs IH Hy]; simpl; [repeat constructor |].
  case_bool_decide as Hlt.
  - constructor; [done |].
    rewrite insert_desc_perm. constructor; [lia | done].
  - constructor; [by constructor |].
    constructor; [lia |]. eapply Forall_impl; [exact Hy |]. simpl. lia.
Qed.

Lemma py_sort_desc_sorted {A} (key : A → nat) l :
  StronglySorted (λ a b, key b ≤ key a)%nat (py_sort_desc key l).
Proof.
  induction l as [|x l IH]; simpl; [constructor |].
  by apply insert_desc_sorted.
Qed.

(** A caption followed by zero padding up to the width [m]. *)
Definition padded (m : nat) (cap : list nat) : list nat :=
  cap ++ replicate (m - length cap) 0%nat.

Lemma assign_rows (m : nat) (lengths : list nat) (todo : list (list nat)) :
  ∀ (k : nat) (done_ : list (list nat)),
    length done_ = k →
    (∀ i cap, todo !! i = Some cap →
       lengths !! (k + i)%nat = Some (length cap) ∧ (length cap ≤ m)%nat) →
    foldl (λ targets '(i, cap),
             let end_ := default 0%nat (lengths !! i) in
             assign_row targets i end_ cap)
          (done_ ++ replicate (length todo) (replicate m 0%nat))
          (imap (λ i cap, ((k + i)%nat, cap)) todo)
    = done_ ++ (padded m <$> todo).
Proof.
  induction todo as [|cap todo IH]; intros k done_ Hk Hlen; [done |].
  rewrite imap_cons. cbn [foldl length replicate].
  destruct (Hlen 0%nat cap eq_refl) as [Hl Hm].
  rewrite Hl. cbn [default]. unfold assign_row at 2.
  replace (k + 0)%nat with (length done_ + 0)%nat by lia.
  rewrite lookup_app_r, Nat.add_0_r, Nat.sub_diag by lia. cbn [lookup list_lookup].
  replace (length done_) with (length done_ + 0)%nat at 1 by lia.
  rewrite insert_app_r. cbn [insert list_insert].
  unfold id. rewrite take_ge by lia. rewrite drop_replicate. fold (padded m cap).
  rewrite (imap_ext _ (λ i cap, ((S k + i)%nat, cap))).
  2:{ intros i x _. simpl. f_equal. lia. }
  rewrite (cons_middle (padded m cap)), app_assoc.
  rewrite IH.
  - by rewrite fmap_cons, <- app_assoc.
  - rewrite length_app. simpl. lia.
  - intros i cap' Hi. replace (S k + i)%nat with (k + S i)%nat by lia.
    by apply Hlen.
Qed.

Lemma forallb_same_length (x : list float) (rest : list (list float)) :
  Forall (λ y, length y = length x) rest →
  forallb (λ y, bool_decide (length y = length x)) rest = true.
Proof.
  induction 1 as [|y rest Hy _ IH]; simpl; [done |].
  by rewrite bool_decide_eq_true_2, IH.
Qed.

(** In a namespace that binds [torch], [collate_fn] does what C8 says:
    it leaves the entries sorted by non-increasing caption length and
    returns their images, ids and caption lengths in that order, and a
    target matrix with one row per entry, as wide as the longest caption,
    whose row [i] is the [i]-th sorted caption followed by zeros. *)
Lemma collate_fn_sorted_padded (G : Globals) (data : list item) :
  g_torch G = true →
  data ≠ [] →
  (∀ x y : item, x ∈ data → y ∈ data → length x.1.1.1 = length y.1.1.1) →
  let sorted := py_sort_desc (λ x : item, length x.1.1.2) data in
  let captions := (λ x : item, x.1.1.2) <$> sorted in
  let width := max_list (length <$> captions) in
  sorted ≡ₚ data
  ∧ StronglySorted (λ a b : item, length b.1.1.2 ≤ length a.1.1.2)%nat sorted
  ∧ collate_fn G data
    = (sorted,
       Ok ((λ x : item, x.1.1.1) <$> sorted,
           padded width <$> captions,
           length <$> captions,
           (λ x : item, x.1.2) <$> sorted)).
Proof.
  intros HG Hne Hshape. cbv zeta.
  set (sorted := py_sort_desc (λ x : item, length x.1.1.2) data).
  assert (Hperm : sorted ≡ₚ data) by apply py_sort_desc_perm.
  split_and!; [done | apply py_sort_desc_sorted |].
  unfold collate_fn. fold sorted. f_equal. clearbody sorted.
  destruct sorted as [|x0 rest].
  { exfalso. apply Hne. symmetry. by apply Permutation_nil_l. }
  unfold unzip4. set (sorted := x0 :: rest) in *.
  change (Ok ?x ≫= ?f) with (f x). cbv beta iota.
  set (captions := (λ x : item, x.1.1.2) <$> sorted).
  set (width := max_list (length <$> captions)).
  unfold torch_stack, torch_zeros, global_torch. rewrite HG.
  change (Ok () ≫= ?f) with (f ()). cbv beta.
  assert (Hstack : match (λ x : item, x.1.1.1) <$> sorted with
                   | [] => Raise RuntimeError
                   | x :: rest =>
                       if forallb (λ y, bool_decide (length y = length x)) rest
                       then Ok ((λ x : item, x.1.1.1) <$> sorted)
                       else Raise RuntimeError
                   end = Ok ((λ x : item, x.1.1.1) <$> sorted)).
  { subst sorted. rewrite fmap_cons.
    rewrite forallb_same_length; [done |].
    apply Forall_fmap, Forall_forall. intros y Hy. simpl.
    apply Hshape; rewrite <- Hperm;
      [by apply list_elem_of_further | apply list_elem_of_here]. }
  rewrite Hstack. change (Ok ?x ≫= ?f) with (f x). cbv beta.
  change (Ok ?x ≫= ?f) with (f x). cbv beta.
  unfold enumerate.
  pose proof (assign_rows width (length <$> captions) captions 0 [] eq_refl)
    as Hrows.
  cbn [app] in Hrows. do 4 f_equal.
  etrans; [| apply Hrows]; [done |].
  intros i cap Hi. split.
  - cbn [Nat.add]. by rewrite list_lookup_fmap, Hi.
  - subst width. apply max_list_elem_of_le, list_elem_of_fmap.
    exists cap. split; [done |]. by eapply list_elem_of_lookup_2.
Qed.

(** C8, on the module as written.  [collate_fn] never returns: with no
    entries there is nothing to unpack, and otherwise [torch.stack] is
    reached, where the global name [torch] is not bound. *)
Theorem collate_fn_raises (data : list item) :
  (collate_fn module_globals data).2
  = match data with
    | [] => Raise ValueError
    | _ :: _ => Raise (NameError "torch")
    end.
Proof.
  unfold collate_fn. cbn [snd].
  destruct (py_sort_desc (λ x : item, length x.1.1.2) data) as [|y l] eqn:Hs.
  - apply py_sort_desc_nil in Hs as ->. done.
  - destruct data; [done |]. done.
Qed.

(** ** The data loaders *)

Lemma batch_sampler_spec (batch_size : Z) acc order :
  0 < batch_size → Z.of_nat (length acc) < batch_size →
  concat (batch_sampler batch_size acc order) = acc ++ order
  ∧ ∀ i b, batch_sampler batch_size acc order !! i = Some b →
      (0 < length b)%nat ∧ Z.of_nat (length b) ≤ batch_size
      ∧ (S i < length (batch_sampler batch_size acc order) →
         Z.of_nat (length b) = batch_size)%nat.
Proof.
  intros Hbs. revert acc. induction order as [|idx order IH]; intros acc Hacc.
  - simpl. destruct acc as [|a acc]; simpl.
    + split; [done |]. intros i b Hb. by rewrite lookup_nil in Hb.
    + split; [by rewrite app_nil_r |]. intros [|i] b Hb; [| done].
      injection Hb as <-. simpl in *. split_and!; lia.
  - cbn [batch_sampler]. case_bool_decide as Hfull.
    + destruct (IH []) as [Hc Hs]; [simpl; lia |].
      split; [simpl; rewrite Hc, <- app_assoc; done |].
      intros [|i] b Hb.
      * injection Hb as <-. rewrite length_app in *. simpl in *.
        split_and!; lia.
      * simpl in Hb. destruct (Hs i b Hb) as (? & ? & Hlast).
        split_and!; [done.. |]. simpl. intros ?. apply Hlast. lia.
    + rewrite length_app in Hfull. simpl in Hfull.
      destruct (IH (acc ++ [idx])) as [Hc Hs].
      { rewrite length_app. simpl. lia. }
      split; [by rewrite Hc, <- app_assoc |]. done.
Qed.

Lemma batch_sampler_batches (batch_size : Z) order :
  0 < batch_size →
  concat (batch_sampler batch_size [] order) = order
  ∧ batches_of_size batch_size (batch_sampler batch_size [] order).
Proof.
  intros Hbs. destruct (batch_sampler_spec batch_size [] order) as [Hc Hs];
    [done | simpl; lia |].
  split; [done |]. exact Hs.
Qed.

Section Loaders.

(** [torch.randperm(n)] is a permutation of [0 .. n - 1]. *)
Hypothesis randperm_permutes : ∀ n, torch_randperm n ≡ₚ seq 0 n.

(** The index batches of the stored loaders.  The loader stored by
    [add_trainset] is over the dataset given, with the batch size given,
    [shuffle] enabled and [collate_fn]; the
    index batches it serves are of that size and cover the indices of the
    dataset in a shuffled order (a permutation).  The loader stored by
    [add_valset] has [shuffle] disabled and [collate_fn]; its index
    batches are of the given size and go through the dataset in its
    original order. *)
Theorem add_trainset_add_valset_spec (self : DatasetCollection)
    (name : string) (dset : nat) (batch_size : Z) (h : Heap)
    (d : ImageCaptionDataset) :
  h_datasets h !! dset = Some d →
  0 < batch_size →
  (∃ it batches,
     data_loaders (add_trainset self name dset batch_size) !! name = Some it
     ∧ data_sets (add_trainset self name dset batch_size) !! name = Some dset
     ∧ it_loader it = {| dl_dataset := dset; dl_batch_size := batch_size;
                         dl_shuffle := true; dl_pin_memory := true;
                         dl_collate_fn := the_collate_fn |}
     ∧ pending_batches h it = Ok batches
     ∧ batches_of_size batch_size batches
     ∧ concat batches ≡ₚ seq 0 (ds_length d))
  ∧ (∃ loader batches,
       val_loaders (add_valset self name dset batch_size) !! name = Some loader
       ∧ loader = {| dl_dataset := dset; dl_batch_size := batch_size;
                     dl_shuffle := false; dl_pin_memory := true;
                     dl_collate_fn := the_collate_fn |}
       ∧ pending_batches h (DataLoader_iter loader) = Ok batches
       ∧ batches_of_size batch_size batches
       ∧ concat batches = seq 0 (ds_length d)).
Proof.
  intros Hd Hbs. split.
  - eexists _, _. unfold add_trainset. cbn [data_loaders data_sets].
    rewrite !lookup_insert_eq. split_and!; [done.. | | |].
    + unfold pending_batches, DataLoader_iter, ImageCaptionDataset_len,
        deref_dataset. cbn [it_pending it_loader dl_dataset]. rewrite Hd. done.
    + by apply batch_sampler_batches.
    + destruct (batch_sampler_batches batch_size
                  (torch_randperm (ds_length d)) Hbs) as [Hc _].
      unfold sampler_order. cbn [dl_shuffle dl_batch_size it_loader].
      rewrite Hc. apply randperm_permutes.
  - eexists _, _. unfold add_valset. cbn [val_loaders].
    rewrite !lookup_insert_eq. split_and!; [done.. | | |].
    + unfold pending_batches, DataLoader_iter, ImageCaptionDataset_len,
        deref_dataset. cbn [it_pending it_loader dl_dataset]. rewrite Hd. done.
    + by apply batch_sampler_batches.
    + by destruct (batch_sampler_batches batch_size (seq 0 (ds_length d)) Hbs).
Qed.

End Loaders.

(** ** [compute_joint_vocab] *)

(** The store after the vocabulary attribute of the datasets at [ls] was
    set one after the other. *)
Lemma set_vocab_fold_lookup (h : Heap) (v : nat) (ls : list nat) (l : nat) :
  let h' := foldl (λ h l, set_vocab h l v) h ls in
  h_vocabs h' = h_vocabs h ∧ h_files h' = h_files h
  ∧ length (h_datasets h') = length (h_datasets h)
  ∧ ∀ d, h_datasets h !! l = Some d →
      ∃ d', h_datasets h' !! l = Some d'
            ∧ ds_captions d' = ds_captions d
            ∧ ds_images d' = ds_images d
            ∧ ds_length d' = ds_length d
            ∧ ds_tokenized_captions d' = ds_tokenized_captions d
            ∧ ds_vocab d' = (if decide (l ∈ ls) then Some v else ds_vocab d).
Proof.
  revert h. induction ls as [|x ls IH]; intros h; cbn zeta.
  - split_and!; [done.. |]. intros d Hd. exists d.
    split_and!; done.
  - cbn [foldl]. destruct (IH (set_vocab h x v)) as (Hv & Hf & Hlen & Hds).
    cbn zeta in *. rewrite Hv, Hf, Hlen. unfold set_vocab at 1 2 3.
    cbn [h_vocabs h_files h_datasets]. rewrite length_alter.
    split_and!; [done.. |]. intros d Hd.
    destruct (decide (x = l)) as [-> | Hne].
    + destruct (Hds {| ds_captions := ds_captions d; ds_images := ds_images d;
                       ds_length := ds_length d;
                       ds_tokenized_captions := ds_tokenized_captions d;
                       ds_vocab := Some v |}) as (d' & Hd' & ? & ? & ? & ? & Hvoc).
      { unfold set_vocab. cbn [h_datasets]. rewrite list_lookup_alter_eq, Hd. done. }
      exists d'. split_and!; try done.
      rewrite Hvoc. cbn [ds_vocab].
      rewrite (decide_True (P := l ∈ l :: ls)) by apply list_elem_of_here.
      by case_decide.
    + destruct (Hds d) as (d' & Hd' & ? & ? & ? & ? & Hvoc).
      { unfold set_vocab. cbn [h_datasets].
        by rewrite list_lookup_alter_ne. }
      exists d'. split_and!; try done. rewrite Hvoc.
      destruct (decide (l ∈ ls)) as [Hin | Hin].
      * rewrite decide_True; [done | by apply list_elem_of_further].
      * rewrite decide_False; [done |].
        intros [? | ?]%elem_of_cons; congruence.
Qed.

Lemma assign_loop_Ok (m : gmap string nat) (v : nat) (kvs : list (string * nat))
    (h : Heap) :
  (∀ kv, kv ∈ kvs → m !! kv.1 = Some kv.2) →
  foldl (λ (r : result Heap) (i : string),
           h ← r; d ← dict_get m i; Ok (set_vocab h d v))
        (Ok h) (kvs.*1)
  = Ok (foldl (λ h l, set_vocab h l v) h (kvs.*2)).
Proof.
  revert h. induction kvs as [|[k l] kvs IH]; intros h Hm; [done |].
  rewrite !fmap_cons. cbn [foldl fst snd].
  assert (Hk : m !! k = Some l) by apply (Hm (k, l)), list_elem_of_here.
  replace (Ok h ≫= λ h0, dict_get m k ≫= λ d, Ok (set_vocab h0 d v))
    with (Ok (set_vocab h l v)) by (unfold dict_get; rewrite Hk; done).
  apply IH. intros kv Hkv. apply Hm. by apply list_elem_of_further.
Qed.

Lemma collect_captions_Ok (h : Heap) (kvs : list (string * nat)) :
  (∀ kv, kv ∈ kvs → is_Some (h_datasets h !! kv.2)) →
  rmapM (λ kv : string * nat,
           v ← deref_dataset h kv.2; Ok (ds_tokenized_captions v)) kvs
  = Ok ((λ kv : string * nat,
           default [] (ds_tokenized_captions <$> h_datasets h !! kv.2)) <$> kvs).
Proof.
  intros Hwf. apply rmapM_pure. intros kv Hkv.
  destruct (Hwf kv Hkv) as [d Hd]. unfold deref_dataset. by rewrite Hd.
Qed.

(** What [compute_joint_vocab] does to a store in which the training
    datasets of the collection exist. *)
Lemma compute_joint_vocab_Ok (h : Heap) (self : DatasetCollection) :
  (∀ name l, data_sets self !! name = Some l → is_Some (h_datasets h !! l)) →
  ∃ h',
    compute_joint_vocab h self = Ok h'
    ∧ h_vocabs h'
      = h_vocabs h ++ [(build_vocabulary (joint_captions h self) "." 4).1]
    ∧ length (h_datasets h') = length (h_datasets h)
    ∧ ∀ l d, h_datasets h !! l = Some d →
        ∃ d', h_datasets h' !! l = Some d'
              ∧ ds_captions d' = ds_captions d
              ∧ ds_images d' = ds_images d
              ∧ ds_length d' = ds_length d
              ∧ ds_tokenized_captions d' = ds_tokenized_captions d
              ∧ ((∃ name, data_sets self !! name = Some l) →
                 ds_vocab d' = Some (length (h_vocabs h)))
              ∧ ((∀ name, data_sets self !! name ≠ Some l) →
                 ds_vocab d' = ds_vocab d).
Proof.
  intros Hwf. unfold compute_joint_vocab.
  rewrite collect_captions_Ok.
  2:{ intros [k l] Hkv. apply elem_of_map_to_list in Hkv. by eapply Hwf. }
  change (Ok ?x ≫= ?f) with (f x). cbv beta.
  fold (joint_captions h self).
  unfold build_vocabulary_in, build_vocabulary_default.
  destruct (build_vocabulary (joint_captions h self) "." 4) as [vocab file] eqn:Hb.
  unfold dict_keys. rewrite assign_loop_Ok.
  2:{ intros [k l] Hkv. by apply elem_of_map_to_list in Hkv. }
  eexists. split; [done |].
  set (h1 := {| h_vocabs := h_vocabs h ++ [vocab]; h_datasets := h_datasets h;
                h_files := h_files h ++ [file] |}).
  set (ls := (map_to_list (data_sets self)).*2).
  pose proof (set_vocab_fold_lookup h1 (length (h_vocabs h)) ls) as Hfold.
  cbn zeta in Hfold.
  split_and!.
  - by destruct (Hfold 0%nat) as (-> & _).
  - by destruct (Hfold 0%nat) as (_ & _ & -> & _).
  - intros l d Hd. destruct (Hfold l) as (_ & _ & _ & Hl).
    destruct (Hl d Hd) as (d' & Hd' & ? & ? & ? & ? & Hvoc).
    exists d'. split_and!; try done.
    + intros [name Hname]. rewrite Hvoc, decide_True; [done |].
      subst ls. apply list_elem_of_fmap. exists (name, l).
      split; [done |]. by apply elem_of_map_to_list.
    + intros Hnot. rewrite Hvoc, decide_False; [done |].
      subst ls. intros ([name l'] & -> & Hin)%list_elem_of_fmap.
      apply elem_of_map_to_list in Hin. by eapply Hnot.
Qed.

(** ** [DatasetCollection.next] *)

Lemma random_choice_Ok {A} G r (l : list A) x :
  random_choice G r l = Ok x → x ∈ l.
Proof.
  unfold random_choice, global_random. destruct (g_random G); [| done].
  destruct l as [|y l]; [done |]. set (l' := y :: l).
  change (Ok () ≫= _) with (py_index l' (r mod length l')).
  unfold py_index. destruct (l' !! _) eqn:Hl; [| done].
  intros [= <-]. by eapply list_elem_of_lookup_2.
Qed.

Lemma random_choice_any {A} G (l : list A) x :
  g_random G = true → x ∈ l → ∃ r, random_choice G r l = Ok x.
Proof.
  intros HG Hx. apply list_elem_of_lookup_1 in Hx as [i Hi].
  pose proof (lookup_lt_Some _ _ _ Hi) as Hlt.
  exists i. unfold random_choice, global_random. rewrite HG.
  destruct l as [|y l]; [done |]. set (l' := y :: l) in *.
  change (Ok () ≫= _) with (py_index l' (i mod length l')).
  rewrite Nat.mod_small by done. unfold py_index. by rewrite Hi.
Qed.

(** The builtin [next] applied to the dataset raises [TypeError], which
    the handler for [StopIteration] does not catch: the call ends there
    and leaves the collection as it was. *)
Lemma next_from_dataset G h self k l :
  data_sets self !! k = Some l →
  next_from G h self k = (self, Raise TypeError).
Proof. intros Hk. unfold next_from, dict_get. by rewrite Hk. Qed.

Lemma next_from_fst G h self k : (next_from G h self k).1 = self.
Proof.
  unfold next_from, dict_get. by destruct (data_sets self !! k).
Qed.

(** With [random] bound the call still returns no batch. *)
Lemma next_type_error G r h self k l :
  next_key G r self = Ok k → data_sets self !! k = Some l →
  next G r h self = (self, Raise TypeError).
Proof.
  intros Hkey Hk. unfold next. rewrite Hkey. by eapply next_from_dataset.
Qed.

(** C3, on the module as written.  Every call of [next] raises
    [NameError]: line 247 evaluates the global name [random], which the
    module does not bind.  No batch is returned, whatever the collection
    holds. *)
Theorem next_raises_name_error (r : nat) (h : Heap) (self : DatasetCollection) :
  next module_globals r h self = (self, Raise (NameError "random")).
Proof. reflexivity. Qed.

(** C2, as amended.  A call of [next] works on the key that
    [random.choice] picks among the keys of [data_loaders]: a key that is
    selected is a registered one and the rest of the call is about this
    key alone; with [random] bound, every registered key can be the one
    selected, at any call, since the set of registered keys is the same
    after the call and the collection keeps no position between calls. *)
Theorem next_key_random_choice (G : Globals) (r : nat) (h : Heap)
    (self : DatasetCollection) :
  (∀ k, next_key G r self = Ok k →
     k ∈ dict_keys (data_loaders self)
     ∧ next G r h self = next_from G h self k)
  ∧ (g_random G = true →
     ∀ k, k ∈ dict_keys (data_loaders self) → ∃ r', next_key G r' self = Ok k)
  ∧ dom (data_loaders (next G r h self).1) = dom (data_loaders self).
Proof.
  split_and!.
  - intros k Hk. split; [by eapply random_choice_Ok |].
    unfold next. by rewrite Hk.
  - intros HG k Hk. by apply random_choice_any.
  - unfold next. destruct (next_key G r self); [| done].
    by rewrite next_from_fst.
Qed.

(** ** Further properties of the readers and the constructors *)

(** [read_m30K] returns the captions file by file: all lines of the first
    caption file, then all lines of the second, and so on. *)
Lemma read_m30K_captions_by_file fs data_path lang split lp images captions :
  read_m30K fs data_path lang split lp = Ok (images, captions) →
  ∃ files,
    Forall2 (λ i f, ∃ content,
               fs_text fs (m30k_caption_path data_path lang split i)
               = Some content ∧ f = file_lines content) (seq 1 5) files
    ∧ captions = concat files.
Proof.
  rewrite read_m30K_unfold. unfold np_load.
  destruct (fs_npy fs _) as [vectors0|]; [| done].
  change (astype <$> Ok vectors0) with (Ok (astype vectors0)).
  set (loop := rmapM _ _).
  change (Ok (astype vectors0) ≫= _)
    with (caps ← loop; Ok (np_repeat 5 (astype vectors0), concat caps)).
  destruct loop as [files|] eqn:Hfiles; [| done].
  intros [= <- <-]. exists files. split; [| done].
  subst loop. apply rmapM_Ok in Hfiles. eapply Forall2_impl; [exact Hfiles |].
  intros i f. unfold open_read.
  destruct (fs_text fs _) as [content|]; [| done].
  intros [= <-]. by exists content.
Qed.

(** What the constructor of [ImageCaptionDataset] does to the store: the
    new dataset is appended, nothing else about the datasets changes, and
    the new dataset has a [vocab] exactly when the constructor was given
    none (or an empty one): a vocabulary that is passed in is not stored. *)
Lemma ImageCaptionDataset_init_Ok h captions images vocab h' self :
  ImageCaptionDataset_init h captions images vocab = Ok (h', self) →
  self = length (h_datasets h)
  ∧ ∃ d t,
      h_datasets h' = h_datasets h ++ [d]
      ∧ ds_captions d = captions ∧ ds_images d = images
      ∧ ds_length d = length captions
      ∧ rmapM tokenize captions = Ok (ds_tokenized_captions d)
      ∧ vocab_truthy h vocab = Ok t
      ∧ ds_vocab d = (if t then None else Some (length (h_vocabs h))).
Proof.
  unfold ImageCaptionDataset_init.
  destruct (rmapM tokenize captions) as [tokens|]; [| done].
  change (Ok tokens ≫= ?f) with (f tokens). cbv beta.
  destruct (vocab_truthy h vocab) as [t|]; [| done].
  change (Ok t ≫= ?f) with (f t). cbv beta.
  destruct t; cbn [negb].
  - intros [= <- <-]. split; [done |]. eexists _, true. by split_and!.
  - unfold build_vocabulary_in.
    destruct (build_vocabulary_default tokens) as [v file].
    intros [= <- <-]. split; [done |]. eexists _, false. by split_and!.
Qed.

(** ** [get_loaders] *)

Lemma foldl_raise {S X} (step : result S → X → result S) l e :
  (∀ e x, step (Raise e) x = Raise e) → foldl step (Raise e) l = Raise e.
Proof.
  intros Hraise. induction l as [|x l IH]; simpl; [done |].
  by rewrite Hraise.
Qed.

Lemma foldl_result_inv {S X} (Inv : S → Prop)
    (step : result S → X → result S) l :
  (∀ e x, step (Raise e) x = Raise e) →
  (∀ s x s', Inv s → step (Ok s) x = Ok s' → Inv s') →
  ∀ s0 s', Inv s0 → foldl step (Ok s0) l = Ok s' → Inv s'.
Proof.
  intros Hraise Hstep. induction l as [|x l IH]; intros s0 s' H0; simpl.
  - by intros [= <-].
  - destruct (step (Ok s0) x) as [s1|e] eqn:Hx.
    + apply IH. by eapply Hstep.
    + by rewrite foldl_raise.
Qed.

(** Every training dataset of the collection is an object of the store. *)
Definition datasets_exist (st : Heap * DatasetCollection) : Prop :=
  ∀ name l, data_sets st.2 !! name = Some l →
    is_Some (h_datasets st.1 !! l).

(** At the end of [get_loaders] all training datasets of the collection it
    returns hold one vocabulary object, the one built from their joint
    tokenized captions. *)
Lemma get_loaders_Ok fs names lang_prefix downsample batch_size h dc :
  get_loaders fs names lang_prefix downsample batch_size = Ok (h, dc) →
  ∃ vref vocab,
    h_vocabs h !! vref = Some vocab
    ∧ vocab = (build_vocabulary (joint_captions h dc) "." 4).1
    ∧ ∀ name l, data_sets dc !! name = Some l →
        ∃ d, h_datasets h !! l = Some d ∧ ds_vocab d = Some vref.
Proof.
  unfold get_loaders. set (step := λ st name, _).
  destruct (foldl step _ names) as [[h0 dc0]|] eqn:Hloop; [| done].
  change (Ok (h0, dc0) ≫= ?f) with (f (h0, dc0)). cbv beta iota.
  assert (Hwf : datasets_exist (h0, dc0)).
  { eapply (foldl_result_inv datasets_exist step names); [done | | | exact Hloop].
    - intros [h1 dc1] name [h2 dc2] Hinv. unfold step.
      change (Ok (h1, dc1) ≫= ?f) with (f (h1, dc1)). cbv beta iota.
      destruct (load_data fs name "train" _ _) as [[ti tc]|]; [| done].
      change (Ok (ti, tc) ≫= ?f) with (f (ti, tc)). cbv beta iota.
      destruct (load_data fs name "val" _ _) as [[vi vc]|]; [| done].
      change (Ok (vi, vc) ≫= ?f) with (f (vi, vc)). cbv beta iota.
      destruct (ImageCaptionDataset_init h1 tc ti None) as [[h3 tr]|] eqn:Ht;
        [| done].
      change (Ok (h3, tr) ≫= ?f) with (f (h3, tr)). cbv beta iota.
      destruct (ds_vocab <$> deref_dataset h3 tr) as [tv|]; [| done].
      change (Ok tv ≫= ?f) with (f tv). cbv beta.
      destruct (ImageCaptionDataset_init h3 vc vi tv) as [[h4 va]|] eqn:Hv;
        [| done].
      change (Ok (h4, va) ≫= ?f) with (f (h4, va)). cbv beta iota.
      intros [= <- <-].
      apply ImageCaptionDataset_init_Ok in Ht as (-> & d1 & t1 & Hd1 & _).
      apply ImageCaptionDataset_init_Ok in Hv as (-> & d2 & t2 & Hd2 & _).
      intros name' l. unfold add_valset, add_trainset. cbn [data_sets snd fst].
      rewrite Hd2, Hd1. rewrite lookup_insert. case_decide as Hname.
      + intros [= <-]. rewrite lookup_app_l by (rewrite length_app; simpl; lia).
        rewrite lookup_app_r by lia. rewrite Nat.sub_diag. by eexists.
      + intros Hl. destruct (Hinv name' l Hl) as [d Hd]. exists d.
        cbn [fst] in Hd. rewrite <- app_assoc.
        by apply lookup_app_l_Some.
    - intros name l. cbn [snd]. unfold DatasetCollection_init.
      cbn [data_sets]. by rewrite lookup_empty. }
  destruct (compute_joint_vocab_Ok h0 dc0 Hwf) as (h' & -> & Hvocabs & _ & Hds).
  change (Ok h' ≫= ?f) with (f h'). cbv beta.
  intros [= <- <-].
  assert (Hcaps : joint_captions h' dc0 = joint_captions h0 dc0).
  { unfold joint_captions. f_equal. apply list_fmap_ext.
    intros i [name l] Hkv. apply list_elem_of_lookup_2, elem_of_map_to_list in Hkv.
    cbn [snd]. destruct (Hwf name l Hkv) as [d Hd]. cbn [fst] in Hd.
    destruct (Hds l d Hd) as (d' & -> & _ & _ & _ & Htok & _).
    rewrite Hd. cbn [fmap option_fmap option_map default]. exact Htok. }
  exists (length (h_vocabs h0)), (build_vocabulary (joint_captions h0 dc0) "." 4).1.
  split_and!.
  - rewrite Hvocabs. rewrite lookup_app_r by lia. by rewrite Nat.sub_diag.
  - by rewrite Hcaps.
  - intros name l Hl. destruct (Hwf name l Hl) as [d Hd]. cbn [fst] in Hd.
    destruct (Hds l d Hd) as (d' & Hd' & _ & _ & _ & _ & Hin & _).
    exists d'. split; [done |]. apply Hin. by exists name.
Qed.

(** C7.  In a store where every training dataset of the collection
    exists, [compute_joint_vocab] returns, having allocated one new
    vocabulary object: the vocabulary [build_vocabulary] builds from the
    concatenation of the tokenized captions of all training datasets.
    Afterwards every training dataset of the collection holds this one
    object as its [vocab]; the captions, images, length and tokenized
    captions of every dataset are what they were, a dataset outside the
    collection keeps its [vocab] as well, and the vocabulary objects that
    existed before are unchanged.  Hence, whenever [get_loaders] returns,
    all training datasets of the collection it returns hold one and the
    same vocabulary object, built from their joint tokenized captions. *)
Theorem compute_joint_vocab_spec :
  (∀ (h : Heap) (self : DatasetCollection),
     (∀ name l, data_sets self !! name = Some l →
        is_Some (h_datasets h !! l)) →
     ∃ h',
       compute_joint_vocab h self = Ok h'
       ∧ h_vocabs h'
         = h_vocabs h ++ [(build_vocabulary (joint_captions h self) "." 4).1]
       ∧ length (h_datasets h') = length (h_datasets h)
       ∧ ∀ l d, h_datasets h !! l = Some d →
           ∃ d', h_datasets h' !! l = Some d'
                 ∧ ds_captions d' = ds_captions d
                 ∧ ds_images d' = ds_images d
                 ∧ ds_length d' = ds_length d
                 ∧ ds_tokenized_captions d' = ds_tokenized_captions d
                 ∧ ((∃ name, data_sets self !! name = Some l) →
                    ds_vocab d' = Some (length (h_vocabs h)))
                 ∧ ((∀ name, data_sets self !! name ≠ Some l) →
                    ds_vocab d' = ds_vocab d))
  ∧ (∀ (fs : FileSystem) (names : list string) (lang_prefix : bool)
       (downsample batch_size : Z) (h : Heap) (dc : DatasetCollection),
       get_loaders fs names lang_prefix downsample batch_size = Ok (h, dc) →
       ∃ vref vocab,
         h_vocabs h !! vref = Some vocab
         ∧ vocab = (build_vocabulary (joint_captions h dc) "." 4).1
         ∧ ∀ name l, data_sets dc !! name = Some l →
             ∃ d, h_datasets h !! l = Some d ∧ ds_vocab d = Some vref).
Proof.
  split.
  - intros h self Hwf. by apply compute_joint_vocab_Ok.
  - intros fs names lang_prefix downsample batch_size h dc Hrun.
    by eapply get_loaders_Ok.
Qed.

(** A vocabulary handed to the constructor of [ImageCaptionDataset] is
    not stored: when the argument [vocab] is a non-empty vocabulary, the
    new dataset has no attribute [vocab]. *)
Lemma init_ignores_given_vocab h captions images (vocab : nat) v h' self :
  h_vocabs h !! vocab = Some v → Vocab.len v ≠ 0%nat →
  ImageCaptionDataset_init h captions images (Some vocab) = Ok (h', self) →
  ∃ d, h_datasets h' !! self = Some d ∧ ds_vocab d = None.
Proof.
  intros Hv Hlen Hinit.
  apply ImageCaptionDataset_init_Ok in Hinit
    as (-> & d & t & Hd & _ & _ & _ & _ & Ht & Hvoc).
  unfold vocab_truthy, deref_vocab in Ht. rewrite Hv in Ht.
  change (Ok v ≫= ?f) with (f v) in Ht. cbv beta in Ht.
  rewrite bool_decide_eq_true_2 in Ht by done. injection Ht as <-.
  exists d. split; [| done].
  rewrite Hd, lookup_app_r by lia. by rewrite Nat.sub_diag.
Qed.

(** * Further properties of the code *)

(** A step of the result monad that is known to succeed. *)
Ltac run_ok :=
  cbv beta iota; repeat (change (Ok ?x ≫= ?f) with (f x); cbv beta iota).

(** ** The indices of a vocabulary *)






(** ** [ImageCaptionDataset.__getitem__] *)

(** The index a vocabulary gives a token: its own, or that of ['<unk>']. *)
Definition token_index (v : Vocabulary) (unk : nat) (w : string) : nat :=
  default unk (Vocab.word2idx v !! w).

Lemma vocab_call_Ok v unk w :
  Vocab.word2idx v !! "<unk>" = Some unk →
  Vocab.call v w = Ok (token_index v unk w).
Proof.
  intros Hunk. unfold Vocab.call, token_index.
  destruct (Vocab.word2idx v !! w); [done |]. by rewrite Hunk.
Qed.

(** Where [torch] is bound and the global name [vocab] is bound to a
    vocabulary that knows ['<unk>'], item [index] of a dataset is the
    image at [index], and as target the indices of ['<start>'], of the
    tokens of caption [index] (that of ['<unk>'] for an unknown token) and
    of ['<end>'], followed by [index] twice.  The vocabulary used is the
    global one: the dataset's own [vocab] plays no part. *)
Theorem getitem_spec (G : Globals) (h : Heap) (self index vl unk : nat)
    (d : ImageCaptionDataset) (v : Vocabulary) (image : list float)
    (tokens : list string) :
  g_torch G = true →
  g_vocab G = Some vl →
  h_datasets h !! self = Some d →
  h_vocabs h !! vl = Some v →
  Vocab.word2idx v !! "<unk>" = Some unk →
  ds_images d !! index = Some image →
  ds_tokenized_captions d !! index = Some tokens →
  ImageCaptionDataset_getitem G h self index
  = Ok (image,
        [token_index v unk "<start>"] ++ (token_index v unk <$> tokens)
        ++ [token_index v unk "<end>"],
        index, index).
Proof.
  intros HG Hvl Hd Hv Hunk Himg Htok.
  unfold ImageCaptionDataset_getitem, deref_dataset, deref_vocab,
    global_torch, global_vocab, py_index.
  rewrite Hd. run_ok. rewrite HG. run_ok. rewrite Himg. run_ok.
  rewrite Htok. run_ok. rewrite Hvl. run_ok. rewrite Hv. run_ok.
  rewrite (vocab_call_Ok v unk "<start>") by done. run_ok.
  rewrite (rmapM_pure _ (token_index v unk))
    by (intros ??; by apply vocab_call_Ok).
  run_ok. rewrite (vocab_call_Ok v unk "<end>") by done. run_ok.
  done.
Qed.

(** How [__getitem__] fails, for a dataset of the store: on the module as
    written with [NameError] for [torch]; where [torch] is bound, with
    [IndexError] for an index that has no image or no caption, and with
    [NameError] for [vocab] when that global name is not bound (the
    method reads [vocab], not [self.vocab]). *)
Theorem getitem_errors (h : Heap) (self index : nat)
    (d : ImageCaptionDataset) :
  h_datasets h !! self = Some d →
  ImageCaptionDataset_getitem module_globals h self index
  = Raise (NameError "torch")
  ∧ (∀ G, g_torch G = true →
       (ds_images d !! index = None
        ∨ ds_tokenized_captions d !! index = None) →
       ImageCaptionDataset_getitem G h self index = Raise IndexError)
  ∧ (∀ G, g_torch G = true → g_vocab G = None →
       is_Some (ds_images d !! index) →
       is_Some (ds_tokenized_captions d !! index) →
       ImageCaptionDataset_getitem G h self index
       = Raise (NameError "vocab")).
Proof.
  intros Hd. unfold ImageCaptionDataset_getitem, deref_dataset,
    global_torch, global_vocab, py_index. rewrite Hd. run_ok. split_and!.
  - done.
  - intros G -> Hnone. run_ok.
    destruct Hnone as [Hn | Hn]; rewrite Hn; [done |].
    by destruct (ds_images d !! index).
  - intros G -> -> [image ->] [tokens ->]. done.
Qed.

(** ** Reading the lines of a caption file *)

(** The text of a file whose lines are [lines], each ended by a newline. *)
Definition unlines (lines : list string) : string :=
  foldr (λ l text, l +:+ String newline text) "" lines.

(** The character does not occur in the string. *)
Definition free_of (c : ascii) (s : string) : Prop :=
  c ∉ list_ascii_of_string s.

Lemma string_app_cons (a : ascii) (s t : string) :
  String a s +:+ t = String a (s +:+ t).
Proof. reflexivity. Qed.

Lemma string_app_nil (t : string) : "" +:+ t = t.
Proof. reflexivity. Qed.

Lemma string_app_assoc (s1 s2 s3 : string) :
  (s1 +:+ s2) +:+ s3 = s1 +:+ (s2 +:+ s3).
Proof.
  induction s1 as [|a s1 IH]; [done |].
  by rewrite !string_app_cons, IH.
Qed.

Lemma free_of_cons c a s :
  free_of c (String a s) ↔ a ≠ c ∧ free_of c s.
Proof.
  unfold free_of. simpl. rewrite not_elem_of_cons.
  split; intros [? ?]; split; congruence.
Qed.

Lemma str_split_free c s : free_of c s → str_split c s = [s].
Proof.
  induction s as [|a s IH]; [done |].
  intros [Ha Hs]%free_of_cons. simpl.
  rewrite bool_decide_eq_false_2 by done. by rewrite IH.
Qed.

Lemma str_split_sep c s1 s2 :
  free_of c s1 →
  str_split c (s1 +:+ String c s2) = s1 :: str_split c s2.
Proof.
  induction s1 as [|a s1 IH].
  - intros _. rewrite string_app_nil. simpl. by rewrite bool_decide_eq_true_2.
  - intros [Ha Hs]%free_of_cons. rewrite string_app_cons. simpl.
    rewrite bool_decide_eq_false_2 by done. by rewrite IH.
Qed.

Lemma str_split_unlines lines rest :
  Forall (free_of newline) lines → free_of newline rest →
  str_split newline (unlines lines +:+ rest) = lines ++ [rest].
Proof.
  intros Hlines Hrest. induction Hlines as [|l lines Hl _ IH]; simpl.
  - rewrite string_app_nil. by apply str_split_free.
  - rewrite string_app_assoc, string_app_cons.
    rewrite str_split_sep by done. by rewrite IH.
Qed.

Lemma file_lines_unlines_lines lines rest :
  Forall (free_of newline) lines → free_of newline rest →
  file_lines (unlines lines +:+ rest) = lines.
Proof.
  intros Hlines Hrest. unfold file_lines, py_slice_to.
  rewrite str_split_unlines by done.
  case_bool_decide; [lia |].
  rewrite length_app. simpl.
  replace (length lines + 1 - Z.to_nat (- (-1)))%nat with (length lines) by lia.
  by rewrite take_app_length.
Qed.

(** [f.read().split('\n')[:-1]] gives back the lines that end in a newline:
    for lines free of newlines, the text made of the lines, each ended by
    a newline, and of any [rest] after the last newline, is read as
    exactly these lines.  What follows the last newline is dropped, so a
    last line that is not ended by a newline is lost. *)
Theorem file_lines_unlines (lines : list string) (rest : string) :
  Forall (free_of newline) lines → free_of newline rest →
  file_lines (unlines lines +:+ rest) = lines
  ∧ S (length (file_lines (unlines lines +:+ rest)))
    = length (str_split newline (unlines lines +:+ rest)).
Proof.
  intros Hlines Hrest. split.
  - by apply file_lines_unlines_lines.
  - rewrite file_lines_unlines_lines, str_split_unlines by done.
    rewrite length_app. simpl. lia.
Qed.

(** A line of the COCO caption file: the caption, and after a tab
    whatever else the line holds. *)
Definition coco_line (e : string * option string) : string :=
  match e.2 with
  | Some more => e.1 +:+ String tab more
  | None => e.1
  end.

Lemma first_field_coco_line e :
  free_of tab e.1 → first_field (coco_line e) = e.1.
Proof.
  intros Hcap. unfold first_field, coco_line. destruct e as [cap [more|]]; simpl in *.
  - by rewrite str_split_sep.
  - by rewrite str_split_free.
Qed.

Lemma free_of_app c s1 s2 :
  free_of c (s1 +:+ s2) ↔ free_of c s1 ∧ free_of c s2.
Proof.
  induction s1 as [|a s1 IH].
  - rewrite string_app_nil. unfold free_of at 2. simpl.
    split; [split; [apply not_elem_of_nil | done] | by intros [_ ?]].
  - rewrite string_app_cons, !free_of_cons, IH. 
    split; [intros (? & ? & ?) | intros ((? & ?) & ?)]; auto.
Qed.

Lemma coco_line_free e :
  free_of newline e.1 → (∀ more, e.2 = Some more → free_of newline more) →
  free_of newline (coco_line e).
Proof.
  intros Hcap Hmore. unfold coco_line. destruct e as [cap [more|]]; simpl in *;
    [| done].
  apply free_of_app. split; [done |]. apply free_of_cons. split; [done |].
  by apply Hmore.
Qed.

(** Without downsampling [read_coco] returns, for a caption file whose
    lines end in newlines, the text before the first tab of every line,
    in the order of the file, and every image vector five times in a row.
    A line without tab is a caption as a whole. *)
Theorem read_coco_parses_captions (fs : FileSystem) (data_path split : string)
    (lang_prefix : bool) (vectors : list (list float))
    (entries : list (string * option string)) (rest : string) :
  fs_npy fs (coco_feature_path data_path split) = Some vectors →
  fs_text fs (coco_caption_path data_path split)
  = Some (unlines (coco_line <$> entries) +:+ rest) →
  Forall (λ e, free_of tab e.1 ∧ free_of newline e.1
               ∧ ∀ more, e.2 = Some more → free_of newline more) entries →
  free_of newline rest →
  read_coco fs data_path split lang_prefix 0
  = Ok (np_repeat 5 (astype vectors), entries.*1).
Proof.
  intros Hnpy Htxt Hentries Hrest.
  unfold read_coco, np_load, open_read.
  fold (coco_feature_path data_path split).
  fold (coco_caption_path data_path split).
  rewrite Hnpy, Htxt. run_ok.
  change (astype <$> Ok vectors) with (Ok (astype vectors)). run_ok.
  rewrite bool_decide_eq_false_2 by (intros H; by apply H). run_ok.
  cbn [concat]. rewrite app_nil_r.
  fold (file_lines (unlines (coco_line <$> entries) +:+ rest)).
  rewrite file_lines_unlines_lines; [| | done].
  - do 2 f_equal. rewrite <- list_fmap_compose. apply list_fmap_ext.
    intros i e He. simpl. apply first_field_coco_line.
    rewrite Forall_forall in Hentries.
    by destruct (Hentries e (list_elem_of_lookup_2 _ _ _ He)).
  - apply Forall_fmap, Forall_forall. intros e He.
    rewrite Forall_forall in Hentries.
    destruct (Hentries e He) as (_ & ? & ?). by apply coco_line_free.
Qed.

(** ** Downsampling beyond what there is *)

Lemma read_coco_unfold fs data_path split lp k vectors content :
  fs_npy fs (coco_feature_path data_path split) = Some vectors →
  fs_text fs (coco_caption_path data_path split) = Some content →
  k ≠ 0 →
  read_coco fs data_path split lp k
  = '(vs, cs) ← coco_downsample (astype vectors) (coco_captions content) k;
    Ok (np_repeat 5 vs, cs).
Proof.
  intros Hnpy Htxt Hk. unfold read_coco, np_load, open_read.
  fold (coco_feature_path data_path split).
  fold (coco_caption_path data_path split).
  rewrite Hnpy, Htxt. run_ok.
  change (astype <$> Ok vectors) with (Ok (astype vectors)). run_ok.
  rewrite bool_decide_eq_true_2 by done.
  cbn [concat]. rewrite app_nil_r. done.
Qed.

Lemma coco_kept_all (n : nat) (k : Z) :
  (∀ l, np_random_shuffle l ≡ₚ l) →
  0 ≤ k → Z.of_nat n - 1 ≤ k →
  coco_kept n k ≡ₚ seq 0 (n - 1).
Proof.
  intros Hperm Hk Hn. unfold coco_kept, py_slice_to, np_arange.
  rewrite bool_decide_eq_true_2 by done.
  rewrite take_ge.
  - rewrite Hperm. by replace (Z.to_nat (Z.of_nat n - 1)) with (n - 1)%nat by lia.
  - rewrite Hperm, length_seq. lia.
Qed.

(** The validation split of ['coconumpy'] is always downsampled to 5000
    images; when the feature file holds no more than 5001 vectors (and
    the caption file has the captions of all but the last), the call
    returns every image but the last one of the file: [5 * (n - 1)]
    images and as many captions, the kept indices being a permutation of
    [0 .. n - 2]. *)
Theorem load_data_val_all_but_last (fs : FileSystem) (lang_prefix : bool)
    (downsample : Z) (vectors : list (list float)) (content : string) :
  (∀ l, np_random_shuffle l ≡ₚ l) →
  fs_npy fs (coco_feature_path COCO_PATH "val") = Some vectors →
  fs_text fs (coco_caption_path COCO_PATH "val") = Some content →
  Z.of_nat (length vectors) ≤ 5001 →
  (5 * (length vectors - 1) ≤ length (coco_captions content))%nat →
  ∃ images captions,
    load_data fs "coconumpy" "val" lang_prefix downsample
    = Ok (images, captions)
    ∧ length images = (5 * (length vectors - 1))%nat
    ∧ length captions = (5 * (length vectors - 1))%nat
    ∧ coco_kept (length vectors) 5000 ≡ₚ seq 0 (length vectors - 1)
    ∧ ∀ i x j, coco_kept (length vectors) 5000 !! i = Some x → (j < 5)%nat →
        images !! (5 * i + j)%nat = astype vectors !! x
        ∧ captions !! (5 * i + j)%nat
          = coco_captions content !! (5 * x + j)%nat.
Proof.
  intros Hperm Hnpy Htxt Hn Hcaps.
  assert (Hkept : coco_kept (length vectors) 5000 ≡ₚ seq 0 (length vectors - 1))
    by (apply coco_kept_all; [done | lia | lia]).
  assert (Hlen : length (astype vectors) = length vectors)
    by (unfold astype; apply length_map).
  change (load_data fs "coconumpy" "val" lang_prefix downsample)
    with (read_coco fs COCO_PATH "val" lang_prefix 5000).
  rewrite (read_coco_unfold _ _ _ _ _ vectors content) by done.
  destruct (coco_downsample_total (astype vectors) (coco_captions content) 5000)
    as (vs & cs & Hd).
  { rewrite Hlen. apply Forall_forall. intros x Hx.
    rewrite Hkept in Hx. apply elem_of_seq in Hx. lia. }
  rewrite Hd. run_ok. exists (np_repeat 5 vs), cs.
  apply coco_downsample_Ok in Hd. rewrite Hlen in Hd.
  destruct Hd as (Hvs & Hcs & Hpos).
  rewrite np_repeat_length, Hvs, Hcs, Hkept, length_seq.
  split_and!; [done.. |].
  intros i x j Hi Hj. rewrite np_repeat_lookup by done.
  destruct (Hpos i x j Hi Hj) as (-> & _ & -> & _). done.
Qed.

(** When [read_coco] downsamples and the caption file is too short for
    one of the kept images, the call raises [IndexError]. *)
Theorem read_coco_short_caption_file (fs : FileSystem)
    (data_path split : string) (lang_prefix : bool) (k : Z)
    (vectors : list (list float)) (content : string) (x : nat) :
  fs_npy fs (coco_feature_path data_path split) = Some vectors →
  fs_text fs (coco_caption_path data_path split) = Some content →
  k ≠ 0 →
  x ∈ coco_kept (length vectors) k →
  (length (coco_captions content) < 5 * x + 5)%nat →
  read_coco fs data_path split lang_prefix k = Raise IndexError.
Proof.
  intros Hnpy Htxt Hk Hx Hshort.
  assert (Hlen : length (astype vectors) = length vectors)
    by (unfold astype; apply length_map).
  rewrite (read_coco_unfold _ _ _ _ _ vectors content) by done.
  pose proof (coco_downsample_raises (astype vectors) (coco_captions content) k)
    as Hraises.
  destruct (coco_downsample _ _ _) as [[vs cs]|e] eqn:Hd.
  - exfalso. apply coco_downsample_Ok in Hd as (_ & _ & Hpos).
    rewrite Hlen in Hpos.
    apply list_elem_of_lookup_1 in Hx as [i Hi].
    destruct (Hpos i x 4%nat Hi) as (_ & _ & _ & Hsome); [lia |].
    apply lookup_lt_is_Some in Hsome. lia.
  - simpl in Hraises. destruct Hraises as [[p ->] | ->]; [| done].
    exfalso. revert Hd. unfold coco_downsample, np_take.
    intros Hd.
    assert (Hidx : ∀ {A} (a : list A) inds p,
              rmapM (py_index a) inds ≠ Raise (IOError p)).
    { intros A a inds p' Hr.
      pose proof (raises_only_rmapM (λ e, e = IndexError) (py_index a) inds) as H.
      rewrite Hr in H. simpl in H. discriminate H.
      intros i. unfold py_index. by destruct (a !! i). }
    destruct (rmapM (py_index (astype vectors)) _) as [vs|e] eqn:Hv.
    + revert Hd. run_ok.
      destruct (rmapM (py_index (coco_captions content)) _) as [cs|e] eqn:Hc;
        [done |].
      intros [= ->]. by eapply Hidx.
    + injection Hd as ->. by eapply Hidx.
Qed.

(** ** What [load_data] raises *)

Definition io_error (e : exn) : Prop := ∃ p, e = IOError p.

Lemma read_m30K_raises_io fs data_path lang split lp :
  raises_only io_error (read_m30K fs data_path lang split lp).
Proof.
  unfold read_m30K, np_load, open_read. apply raises_only_bind.
  { apply raises_only_fmap. destruct (fs_npy fs _); simpl; [done | by eexists]. }
  intros vs. apply raises_only_bind; [| done].
  apply raises_only_rmapM. intros i.
  apply raises_only_bind; [| done].
  destruct (fs_text fs _); simpl; [done | by eexists].
Qed.

Lemma read_coco_plain_raises_io fs data_path split lp :
  raises_only io_error (read_coco fs data_path split lp 0).
Proof.
  unfold read_coco, np_load, open_read. apply raises_only_bind.
  { apply raises_only_fmap. destruct (fs_npy fs _); simpl; [done | by eexists]. }
  intros vs. apply raises_only_bind.
  { destruct (fs_text fs _); simpl; [done | by eexists]. }
  intros content. rewrite bool_decide_eq_false_2 by (intros H; by apply H).
  done.
Qed.

Lemma rmapM_first_failure {A B} (f : A → result B) l1 x l2 e :
  Forall (λ y, ∃ b, f y = Ok b) l1 → f x = Raise e →
  rmapM f (l1 ++ x :: l2) = Raise e.
Proof.
  intros Hl1 Hx. induction Hl1 as [|y l1 [b Hy] _ IH]; simpl.
  - by rewrite Hx.
  - rewrite Hy. run_ok. by rewrite IH.
Qed.

(** [load_data] raises nothing but [IOError], [IndexError] and
    [NotImplementedError], and [IndexError] only when it downsamples:
    for the Multi30K names, and for ['coconumpy'] with a split other than
    ['val'] and [downsample] false, a call that fails fails with
    [IOError] (a file is missing) or [NotImplementedError]. *)
Theorem load_data_exceptions (fs : FileSystem) (name split : string)
    (lang_prefix : bool) (downsample : Z) (e : exn) :
  load_data fs name split lang_prefix downsample = Raise e →
  (io_error e ∨ e = IndexError ∨ e = NotImplementedError)
  ∧ (effective_downsample name split downsample = 0 → e ≠ IndexError).
Proof.
  unfold load_data, effective_downsample.
  destruct (decide (name = "coconumpy")) as [-> | Hcoco].
  - rewrite !bool_decide_eq_true_2 by done.
    set (k := if bool_decide (split = "val") then 5000 else downsample).
    intros He. split.
    + pose proof (read_coco_raises fs COCO_PATH split lang_prefix k) as H.
      rewrite He in H. simpl in H. destruct H as [[p ->] | ->];
        [left; by eexists | by right; left].
    + intros Hk. rewrite Hk in He.
      pose proof (read_coco_plain_raises_io fs COCO_PATH split lang_prefix) as H.
      rewrite He in H. simpl in H. destruct H as [p ->]. done.
  - rewrite !(bool_decide_eq_false_2 (name = "coconumpy")) by done.
    assert (Hm : ∀ lang, read_m30K fs M30K_PATH lang split lang_prefix = Raise e →
              (io_error e ∨ e = IndexError ∨ e = NotImplementedError)
              ∧ (0 = 0 → e ≠ IndexError)).
    { intros lang He.
      pose proof (read_m30K_raises_io fs M30K_PATH lang split lang_prefix) as H.
      rewrite He in H. simpl in H. split; [by left |].
      destruct H as [p ->]. done. }
    case_bool_decide; [apply Hm |]. case_bool_decide; [apply Hm |].
    intros [= <-]. split; [by right; right | done].
Qed.

(** Which file a failing read names: the feature file when it is missing;
    else, for ['coconumpy'], the caption file when that is missing; and
    for Multi30K the first of the five caption files that is missing. *)
Theorem load_data_missing_file (fs : FileSystem) (split : string)
    (lang_prefix : bool) (downsample : Z) :
  (∀ name, name ∈ ["coconumpy"; "m30ken"; "m30kde"] →
     fs_npy fs (feature_path name split) = None →
     load_data fs name split lang_prefix downsample
     = Raise (IOError (feature_path name split)))
  ∧ (is_Some (fs_npy fs (coco_feature_path COCO_PATH split)) →
     fs_text fs (coco_caption_path COCO_PATH split) = None →
     load_data fs "coconumpy" split lang_prefix downsample
     = Raise (IOError (coco_caption_path COCO_PATH split)))
  ∧ (∀ name lang i,
       (name = "m30ken" ∧ lang = "en" ∨ name = "m30kde" ∧ lang = "de") →
       is_Some (fs_npy fs (m30k_feature_path M30K_PATH split)) →
       (1 ≤ i ≤ 5)%nat →
       (∀ j, (1 ≤ j < i)%nat →
          is_Some (fs_text fs (m30k_caption_path M30K_PATH lang split j))) →
       fs_text fs (m30k_caption_path M30K_PATH lang split i) = None →
       load_data fs name split lang_prefix downsample
       = Raise (IOError (m30k_caption_path M30K_PATH lang split i))).
Proof.
  split_and!.
  - intros name Hname. unfold load_data, feature_path.
    repeat (apply elem_of_cons in Hname as [-> | Hname]);
      [| | | by apply elem_of_nil in Hname].
    + rewrite !bool_decide_eq_true_2 by done. intros Hnone.
      unfold read_coco, np_load.
      fold (coco_feature_path COCO_PATH split). by rewrite Hnone.
    + rewrite (bool_decide_eq_false_2 ("m30ken" = "coconumpy")) by done.
      rewrite !bool_decide_eq_true_2 by done. intros Hnone.
      rewrite read_m30K_unfold. unfold np_load. by rewrite Hnone.
    + rewrite (bool_decide_eq_false_2 ("m30kde" = "coconumpy")) by done.
      rewrite (bool_decide_eq_false_2 ("m30kde" = "m30ken")) by done.
      rewrite !bool_decide_eq_true_2 by done. intros Hnone.
      rewrite read_m30K_unfold. unfold np_load. by rewrite Hnone.
  - intros [vectors Hnpy] Hnone. unfold load_data.
    rewrite !bool_decide_eq_true_2 by done.
    unfold read_coco, np_load, open_read.
    fold (coco_feature_path COCO_PATH split).
    fold (coco_caption_path COCO_PATH split).
    by rewrite Hnpy, Hnone.
  - intros name lang i Hname [vectors Hnpy] Hi Hbefore Hnone.
    assert (Hread : read_m30K fs M30K_PATH lang split lang_prefix
                    = Raise (IOError (m30k_caption_path M30K_PATH lang split i))).
    { rewrite read_m30K_unfold. unfold np_load. rewrite Hnpy.
      change (astype <$> Ok vectors) with (Ok (astype vectors)). run_ok.
      replace (seq 1 5) with (seq 1 (i - 1) ++ i :: seq (S i) (5 - i)).
      2:{ clear -Hi. destruct i as [|[|[|[|[|[|i]]]]]]; (lia || reflexivity). }
      rewrite (rmapM_first_failure _ _ _ _
                 (IOError (m30k_caption_path M30K_PATH lang split i))); [done | |].
      - apply Forall_forall. intros j Hj. apply elem_of_seq in Hj.
        unfold open_read. destruct (Hbefore j) as [c ->]; [lia |]. by eexists.
      - unfold open_read. by rewrite Hnone. }
    unfold load_data. destruct Hname as [[-> ->] | [-> ->]].
    + rewrite (bool_decide_eq_false_2 ("m30ken" = "coconumpy")) by done.
      by rewrite bool_decide_eq_true_2.
    + rewrite (bool_decide_eq_false_2 ("m30kde" = "coconumpy")) by done.
      rewrite (bool_decide_eq_false_2 ("m30kde" = "m30ken")) by done.
      by rewrite bool_decide_eq_true_2.
Qed.

(** ** Collections as the class builds them *)

(** The collections that [DatasetCollection()], [add_trainset] and
    [add_valset] can produce. *)
Inductive built : DatasetCollection → Prop :=
  | built_init : built DatasetCollection_init
  | built_trainset self name dset batch_size :
      built self → built (add_trainset self name dset batch_size)
  | built_valset self name dset batch_size :
      built self → built (add_valset self name dset batch_size).

Lemma built_invariant self :
  built self →
  dom (data_loaders self) = dom (data_sets self)
  ∧ (∀ name it, data_loaders self !! name = Some it →
       data_sets self !! name = Some (dl_dataset (it_loader it))
       ∧ dl_shuffle (it_loader it) = true
       ∧ dl_collate_fn (it_loader it) = the_collate_fn
       ∧ it_pending it = None)
  ∧ (∀ name loader, val_loaders self !! name = Some loader →
       dl_shuffle loader = false ∧ dl_collate_fn loader = the_collate_fn).
Proof.
  induction 1 as [|self name dset bs _ (Hdom & Htrain & Hval)
                  |self name dset bs _ (Hdom & Htrain & Hval)].
  - unfold DatasetCollection_init. cbn. split_and!; [done | |];
      intros ??; by rewrite lookup_empty.
  - unfold add_trainset. cbn [data_loaders data_sets val_loaders].
    split_and!; [by rewrite !dom_insert_L, Hdom | | done].
    intros name' it. destruct (decide (name = name')) as [<- | Hne].
    + rewrite !lookup_insert_eq. by intros [= <-].
    + rewrite !lookup_insert_ne by done. apply Htrain.
  - unfold add_valset. cbn [data_loaders data_sets val_loaders].
    split_and!; [done.. |].
    intros name' loader. destruct (decide (name = name')) as [<- | Hne].
    + rewrite lookup_insert_eq. by intros [= <-].
    + rewrite lookup_insert_ne by done. apply Hval.
Qed.

(** In every collection the class can build, the training loaders and
    the training datasets are registered under the same names, every
    training loader is a fresh iterator over the dataset registered under
    its name, shuffling and collating with [collate_fn], and every
    validation loader collates with [collate_fn] without shuffling. *)
Theorem built_collection_invariant (self : DatasetCollection) :
  built self →
  dom (data_loaders self) = dom (data_sets self)
  ∧ (∀ name it, data_loaders self !! name = Some it →
       data_sets self !! name = Some (dl_dataset (it_loader it))
       ∧ dl_shuffle (it_loader it) = true
       ∧ dl_collate_fn (it_loader it) = the_collate_fn
       ∧ it_pending it = None)
  ∧ (∀ name loader, val_loaders self !! name = Some loader →
       dl_shuffle loader = false ∧ dl_collate_fn loader = the_collate_fn).
Proof. intros Hbuilt. by apply built_invariant. Qed.

Lemma dict_keys_nil {V} (m : gmap string V) : dict_keys m = [] ↔ m = ∅.
Proof.
  unfold dict_keys. rewrite <- map_to_list_empty_iff. split.
  - apply fmap_nil_inv.
  - by intros ->.
Qed.

Lemma elem_of_dict_keys {V} (m : gmap string V) k :
  k ∈ dict_keys m ↔ is_Some (m !! k).
Proof.
  unfold dict_keys. rewrite list_elem_of_fmap. split.
  - intros ([k' v] & -> & Hin). apply elem_of_map_to_list in Hin. by eexists.
  - intros [v Hv]. exists (k, v). split; [done |]. by apply elem_of_map_to_list.
Qed.

(** What a call of [next] does on a collection the class has built, in
    any namespace and whatever the generator draws: it raises
    [NameError] where [random] is not bound; else [IndexError] when no
    training set is registered, and [TypeError] otherwise; it never
    returns a batch, never raises [KeyError] or [StopIteration], and
    leaves the collection as it was. *)
Theorem next_outcome (G : Globals) (r : nat) (h : Heap)
    (self : DatasetCollection) :
  built self →
  next G r h self
  = (self,
     Raise (if negb (g_random G) then NameError "random"
            else if bool_decide (data_loaders self = ∅) then IndexError
            else TypeError)).
Proof.
  intros Hbuilt. destruct (built_invariant self Hbuilt) as (Hdom & _ & _).
  unfold next, next_key, random_choice, global_random.
  destruct (g_random G); [| done]. run_ok. cbn [negb].
  destruct (dict_keys (data_loaders self)) as [|k0 keys] eqn:Hkeys.
  - apply dict_keys_nil in Hkeys. by rewrite bool_decide_eq_true_2.
  - rewrite bool_decide_eq_false_2.
    2:{ intros Hempty. apply dict_keys_nil in Hempty. congruence. }
    set (l := k0 :: keys) in *. unfold py_index.
    destruct (l !! (r mod length l)%nat) as [k|] eqn:Hk.
    + assert (Hin : k ∈ dict_keys (data_loaders self))
        by (rewrite Hkeys; by eapply list_elem_of_lookup_2).
      apply elem_of_dict_keys, elem_of_dom in Hin. rewrite Hdom in Hin.
      apply elem_of_dom in Hin as [dset Hdset].
      by eapply next_from_dataset.
    + exfalso. apply lookup_ge_None in Hk.
      pose proof (Nat.mod_upper_bound r (length l)) as Hmod.
      subst l. simpl in *. lia.
Qed.

(** ** What [get_loaders] builds *)

Lemma ImageCaptionDataset_init_full h captions images vocab h' self :
  ImageCaptionDataset_init h captions images vocab = Ok (h', self) →
  ∃ d tokens t,
    self = length (h_datasets h)
    ∧ h_datasets h' = h_datasets h ++ [d]
    ∧ vocab_truthy h vocab = Ok t
    ∧ h_vocabs h'
      = (if t then h_vocabs h
         else h_vocabs h ++ [(build_vocabulary_default tokens).1])
    ∧ ds_vocab d = (if t then None else Some (length (h_vocabs h)))
    ∧ rmapM tokenize captions = Ok tokens
    ∧ ds_captions d = captions ∧ ds_images d = images
    ∧ ds_length d = length captions
    ∧ ds_tokenized_captions d = tokens.
Proof.
  unfold ImageCaptionDataset_init.
  destruct (rmapM tokenize captions) as [tokens|]; [| done]. run_ok.
  destruct (vocab_truthy h vocab) as [t|]; [| done]. run_ok.
  destruct t; cbn [negb].
  - intros [= <- <-]. eexists _, tokens, true. by split_and!.
  - unfold build_vocabulary_in.
    destruct (build_vocabulary_default tokens) as [v file] eqn:Hb.
    intros [= <- <-]. eexists _, tokens, false. rewrite Hb. by split_and!.
Qed.

Lemma build_vocabulary_len captions path threshold :
  Vocab.len (build_vocabulary captions path threshold).1 ≠ 0%nat.
Proof.
  unfold Vocab.len. intros Hsize. apply map_size_empty_iff in Hsize.
  assert (Hpad : Vocab.word2idx (build_vocabulary captions path threshold).1
                 !! "<pad>" = Some 0%nat).
  { unfold build_vocabulary. cbn [fst]. by apply add_words_lookup_old. }
  rewrite Hsize in Hpad. by rewrite lookup_empty in Hpad.
Qed.

Lemma list_to_set_snoc (seen : list string) (x : string) :
  list_to_set (C := gset string) (seen ++ [x]) = {[x]} ∪ list_to_set seen.
Proof.
  rewrite list_to_set_app_L. cbn [list_to_set foldr].
  rewrite (right_id_L ∅ (∪)). apply (comm_L (∪)).
Qed.

Lemma foldl_result_inv_prefix {S X} (Inv : list X → S → Prop)
    (step : result S → X → result S) l :
  (∀ e x, step (Raise e) x = Raise e) →
  (∀ seen s x s', Inv seen s → step (Ok s) x = Ok s' → Inv (seen ++ [x]) s') →
  ∀ seen s0 s', Inv seen s0 → foldl step (Ok s0) l = Ok s' →
    Inv (seen ++ l) s'.
Proof.
  intros Hraise Hstep. induction l as [|x l IH]; intros seen s0 s' H0; simpl.
  - intros [= <-]. by rewrite app_nil_r.
  - destruct (step (Ok s0) x) as [s1|e] eqn:Hx.
    + intros Hl. rewrite (cons_middle x), app_assoc. eapply IH; [| exact Hl].
      by eapply Hstep.
    + by rewrite foldl_raise.
Qed.

(** The state of the loop of [get_loaders] after the names [seen]: two
    datasets and one vocabulary per name; the training sets sit at the
    even positions of the store, the validation sets at the odd ones, and
    no validation set has a [vocab]. *)
Definition loaders_inv (seen : list string) (st : Heap * DatasetCollection)
  : Prop :=
  length (h_datasets st.1) = (2 * length seen)%nat
  ∧ length (h_vocabs st.1) = length seen
  ∧ dom (data_sets st.2) = list_to_set seen
  ∧ dom (data_loaders st.2) = list_to_set seen
  ∧ dom (val_loaders st.2) = list_to_set seen
  ∧ built st.2
  ∧ (∀ name l, data_sets st.2 !! name = Some l →
       (∃ k, l = 2 * k)%nat ∧ (l < length (h_datasets st.1))%nat)
  ∧ (∀ name loader, val_loaders st.2 !! name = Some loader →
       ∃ k d, (dl_dataset loader = 2 * k + 1)%nat
              ∧ h_datasets st.1 !! dl_dataset loader = Some d
              ∧ ds_vocab d = None).

Lemma loaders_inv_step fs lang_prefix downsample batch_size seen h dc name h' dc' :
  loaders_inv seen (h, dc) →
  ('(train_img, train_cap) ← load_data fs name "train" lang_prefix downsample;
   '(val_img, val_cap) ← load_data fs name "val" lang_prefix downsample;
   '(h, trainset) ← ImageCaptionDataset_init h train_cap train_img None;
   trainset_vocab ← ds_vocab <$> deref_dataset h trainset;
   '(h, valset) ← ImageCaptionDataset_init h val_cap val_img trainset_vocab;
   let data_loaders := add_trainset dc name trainset batch_size in
   let data_loaders := add_valset data_loaders name valset batch_size in
   Ok (h, data_loaders)) = Ok (h', dc') →
  loaders_inv (seen ++ [name]) (h', dc').
Proof.
  intros (Hds & Hvs & Hdom1 & Hdom2 & Hdom3 & Hbuilt & Htrain & Hval).
  cbn [fst snd] in *.
  destruct (load_data fs name "train" _ _) as [[ti tc]|]; [| done]. run_ok.
  destruct (load_data fs name "val" _ _) as [[vi vc]|]; [| done]. run_ok.
  destruct (ImageCaptionDataset_init h tc ti None) as [[h3 tr]|] eqn:Ht;
    [| done]. run_ok.
  apply ImageCaptionDataset_init_full in Ht
    as (d1 & tok1 & t1 & -> & Hd1 & Ht1 & Hv1 & Hvoc1 & _).
  injection Ht1 as <-.
  unfold deref_dataset. rewrite Hd1.
  rewrite lookup_app_r, Nat.sub_diag by lia. cbn [lookup list_lookup].
  change (ds_vocab <$> Ok d1) with (Ok (ds_vocab d1)). run_ok.
  rewrite Hvoc1.
  destruct (ImageCaptionDataset_init h3 vc vi _) as [[h4 va]|] eqn:Hv;
    [| done]. run_ok.
  apply ImageCaptionDataset_init_full in Hv
    as (d2 & tok2 & t2 & -> & Hd2 & Ht2 & Hv2 & Hvoc2 & _).
  assert (t2 = true) as ->.
  { revert Ht2. unfold vocab_truthy, deref_vocab. rewrite Hv1.
    rewrite lookup_app_r, Nat.sub_diag by lia. cbn [lookup list_lookup].
    run_ok. rewrite bool_decide_eq_true_2 by apply build_vocabulary_len.
    by intros [= <-]. }
  intros [= <- <-]. unfold loaders_inv. cbn [fst snd].
  unfold add_valset, add_trainset. cbn [data_sets data_loaders val_loaders].
  rewrite Hd2, Hd1, Hv2, Hv1, !length_app. cbn [length].
  rewrite !dom_insert_L, Hdom1, Hdom2, Hdom3, list_to_set_snoc.
  split_and!.
  - lia.
  - lia.
  - done.
  - done.
  - done.
  - apply (built_valset (add_trainset dc name (length (h_datasets h)) batch_size)),
      built_trainset, Hbuilt.
  - intros name' l. rewrite lookup_insert. case_decide.
    + intros [= <-]. split; [exists (length seen); lia | lia].
    + intros Hl. destruct (Htrain name' l Hl). split; [done | lia].
  - intros name' loader. rewrite lookup_insert. case_decide.
    + intros [= <-]. cbn [dl_dataset]. exists (length seen), d2.
      split; [lia |]. split; [| done].
      rewrite lookup_app_r by (rewrite length_app; simpl; lia).
      rewrite length_app. cbn [length].
      by replace (length (h_datasets h) + 1 - (length (h_datasets h) + 1))%nat
        with 0%nat by lia.
    + intros Hl. destruct (Hval name' loader Hl) as (k & d & Hk & Hd & Hvoc).
      exists k, d. split; [done |]. split; [| done].
      rewrite <- app_assoc. by apply lookup_app_l_Some.
Qed.

Lemma get_loaders_loop fs names lang_prefix downsample batch_size h dc :
  foldl (λ (st : result (Heap * DatasetCollection)) (name : string),
           '(h, data_loaders) ← st;
           '(train_img, train_cap) ← load_data fs name "train" lang_prefix downsample;
           '(val_img, val_cap) ← load_data fs name "val" lang_prefix downsample;
           '(h, trainset) ← ImageCaptionDataset_init h train_cap train_img None;
           trainset_vocab ← ds_vocab <$> deref_dataset h trainset;
           '(h, valset) ← ImageCaptionDataset_init h val_cap val_img trainset_vocab;
           let data_loaders := add_trainset data_loaders name trainset batch_size in
           let data_loaders := add_valset data_loaders name valset batch_size in
           Ok (h, data_loaders))
        (Ok (empty_heap, DatasetCollection_init)) names = Ok (h, dc) →
  loaders_inv names (h, dc).
Proof.
  intros Hloop.
  refine (foldl_result_inv_prefix loaders_inv _ names _ _ []
            (empty_heap, DatasetCollection_init) (h, dc) _ Hloop).
  - done.
  - intros seen [h1 dc1] name [h2 dc2] Hinv Hstep.
    by eapply loaders_inv_step.
  - unfold loaders_inv, empty_heap, DatasetCollection_init. cbn.
    rewrite !dom_empty_L.
    split_and!; [done.. | apply built_init | |]; intros ??; by rewrite lookup_empty.
Qed.

(** Whenever [get_loaders] returns: a training set, a training loader and
    a validation loader are registered under exactly the names given; the
    store holds two datasets for every name given (repeated names
    counted) and one vocabulary more than names; every training set
    holds the joint vocabulary, which is the last one allocated, while no
    validation set has a [vocab] at all; and the collection is one that
    [DatasetCollection()], [add_trainset] and [add_valset] build. *)
Theorem get_loaders_shape (fs : FileSystem) (names : list string)
    (lang_prefix : bool) (downsample batch_size : Z) (h : Heap)
    (dc : DatasetCollection) :
  get_loaders fs names lang_prefix downsample batch_size = Ok (h, dc) →
  dom (data_sets dc) = list_to_set names
  ∧ dom (data_loaders dc) = list_to_set names
  ∧ dom (val_loaders dc) = list_to_set names
  ∧ built dc
  ∧ length (h_datasets h) = (2 * length names)%nat
  ∧ length (h_vocabs h) = S (length names)
  ∧ (∀ name l, data_sets dc !! name = Some l →
       ∃ d, h_datasets h !! l = Some d ∧ ds_vocab d = Some (length names))
  ∧ (∀ name loader, val_loaders dc !! name = Some loader →
       ∃ d, h_datasets h !! dl_dataset loader = Some d ∧ ds_vocab d = None).
Proof.
  unfold get_loaders. set (loop := foldl _ _ names).
  destruct loop as [[h0 dc0]|] eqn:Hloop; [| done]. run_ok.
  subst loop. apply get_loaders_loop in Hloop
    as (Hds & Hvs & Hdom1 & Hdom2 & Hdom3 & Hbuilt & Htrain & Hval).
  cbn [fst snd] in *.
  assert (Hwf : ∀ name l, data_sets dc0 !! name = Some l →
                  is_Some (h_datasets h0 !! l)).
  { intros name l Hl. apply lookup_lt_is_Some. by destruct (Htrain name l Hl). }
  destruct (compute_joint_vocab_Ok h0 dc0 Hwf) as (h' & -> & Hvocabs & Hlen & Hall).
  run_ok. intros [= <- <-].
  rewrite Hvocabs, length_app, Hlen, Hds, Hvs. cbn [length].
  split_and!; [done.. | lia | |].
  - intros name l Hl. destruct (Hwf name l Hl) as [d Hd].
    destruct (Hall l d Hd) as (d' & Hd' & _ & _ & _ & _ & Hin & _).
    exists d'. split; [done |]. rewrite <- Hvs. apply Hin. by exists name.
  - intros name loader Hl.
    destruct (Hval name loader Hl) as (k & d & Hk & Hd & Hvoc).
    destruct (Hall (dl_dataset loader) d Hd) as (d' & Hd' & _ & _ & _ & _ & _ & Hout).
    exists d'. split; [done |]. rewrite Hout; [done |].
    intros name' Hname'. destruct (Htrain name' _ Hname') as [[k' Hk'] _]. lia.
Qed.

Lemma get_loaders_step_unknown (fs : FileSystem) (lang_prefix : bool)
    (downsample batch_size : Z) names name
    (st : result (Heap * DatasetCollection)) :
  name ∈ names → name ∉ ["coconumpy"; "m30ken"; "m30kde"] →
  ∃ e,
    foldl (λ (st : result (Heap * DatasetCollection)) (name : string),
             '(h, data_loaders) ← st;
             '(train_img, train_cap) ← load_data fs name "train" lang_prefix downsample;
             '(val_img, val_cap) ← load_data fs name "val" lang_prefix downsample;
             '(h, trainset) ← ImageCaptionDataset_init h train_cap train_img None;
             trainset_vocab ← ds_vocab <$> deref_dataset h trainset;
             '(h, valset) ← ImageCaptionDataset_init h val_cap val_img trainset_vocab;
             let data_loaders := add_trainset data_loaders name trainset batch_size in
             let data_loaders := add_valset data_loaders name valset batch_size in
             Ok (h, data_loaders))
          st names = Raise e.
Proof.
  intros Hin Hunknown. set (step := λ st name, _). revert st.
  induction names as [|x names IH]; intros st; [by apply elem_of_nil in Hin |].
  change (foldl step st (x :: names)) with (foldl step (step st x) names).
  apply elem_of_cons in Hin as [<- | Hin]; [| by apply IH].
  assert (Hstep : ∃ e, step st name = Raise e).
  { subst step. cbv beta. destruct st as [[h dc]|e]; [| by eexists]. run_ok.
    assert (Hload : load_data fs name "train" lang_prefix downsample
                    = Raise NotImplementedError).
    { unfold load_data.
      rewrite !bool_decide_eq_false_2; [done | | |];
        intros ->; apply Hunknown; elem_of_list. }
    rewrite Hload. by eexists. }
  destruct Hstep as [e ->]. exists e. by apply foldl_raise.
Qed.

(** [get_loaders] does not return when one of the names given is none of
    ['coconumpy'], ['m30ken'] and ['m30kde']; and it raises
    [NotImplementedError] when the first name is such a name.  With no
    name at all it returns an empty collection and one vocabulary, which
    holds the four special tokens only. *)
Theorem get_loaders_names (fs : FileSystem) (lang_prefix : bool)
    (downsample batch_size : Z) :
  (∀ names name,
     name ∈ names → name ∉ ["coconumpy"; "m30ken"; "m30kde"] →
     ∃ e, get_loaders fs names lang_prefix downsample batch_size = Raise e)
  ∧ (∀ names name,
       name ∉ ["coconumpy"; "m30ken"; "m30kde"] →
       get_loaders fs (name :: names) lang_prefix downsample batch_size
       = Raise NotImplementedError)
  ∧ ∃ h,
      get_loaders fs [] lang_prefix downsample batch_size
      = Ok (h, DatasetCollection_init)
      ∧ h_datasets h = []
      ∧ ∃ vocab, h_vocabs h = [vocab] ∧ Vocab.idx vocab = 4%nat
                 ∧ ∀ w, Vocab.contains vocab w ↔ w ∈ special_tokens.
Proof.
  split_and!.
  - intros names name Hin Hunknown. unfold get_loaders.
    destruct (get_loaders_step_unknown fs lang_prefix downsample batch_size
                names name (Ok (empty_heap, DatasetCollection_init)) Hin Hunknown)
      as [e He].
    set (loop := foldl _ _ names).
    assert (loop = Raise e) as -> by exact He.
    by exists e.
  - intros names name Hunknown. unfold get_loaders. cbn [foldl]. run_ok.
    assert (Hload : load_data fs name "train" lang_prefix downsample
                    = Raise NotImplementedError).
    { unfold load_data.
      rewrite !bool_decide_eq_false_2; [done | | |];
        intros ->; apply Hunknown; elem_of_list. }
    rewrite Hload.
    change (Raise NotImplementedError ≫= ?f) with (@Raise (Heap * DatasetCollection) NotImplementedError).
    by rewrite foldl_raise.
  - exists {| h_vocabs := [(build_vocabulary [] "." 4).1];
              h_datasets := [];
              h_files := [(build_vocabulary [] "." 4).2] |}.
    split; [reflexivity |]. split; [reflexivity |].
    exists (build_vocabulary [] "." 4).1.
    split; [reflexivity |]. split; [reflexivity |].
    intros w. unfold build_vocabulary. cbn [fst].
    change (frequent_words (count_captions []) 4) with (@nil string).
    cbn [foldl]. rewrite !add_word_contains.
    unfold special_tokens. rewrite !elem_of_cons, elem_of_nil.
    unfold Vocab.contains, Vocab.empty. cbn [Vocab.word2idx].
    rewrite lookup_empty. split.
    + intros [-> | [-> | [-> | [-> | [x Hx]]]]]; try discriminate Hx; auto 10.
    + intros [-> | [-> | [-> | [-> | []]]]]; auto 10.
Qed.

(** ** What [collate_fn] does to its argument, and how it fails *)

Lemma insert_desc_filter {A} (key : A → nat) (n : nat) x l :
  filter (λ y, key y = n) (insert_desc key x l)
  = filter (λ y, key y = n) (x :: l).
Proof.
  induction l as [|y l IH]; simpl; [done |].
  case_bool_decide as Hlt; [| done].
  rewrite (filter_cons _ y), IH, !filter_cons.
  destruct (decide (key y = n)), (decide (key x = n)); try done. lia.
Qed.

Lemma py_sort_desc_filter {A} (key : A → nat) (n : nat) l :
  filter (λ y, key y = n) (py_sort_desc key l) = filter (λ y, key y = n) l.
Proof.
  induction l as [|x l IH]; simpl; [done |].
  by rewrite insert_desc_filter, !filter_cons, IH.
Qed.

(** In every namespace, also when it raises, [collate_fn] leaves its
    argument sorted by non-increasing caption length, the entries of one
    caption length in the order they had.  It raises [ValueError] for an
    empty list and, where [torch] is bound, [RuntimeError] when two
    images differ in shape. *)
Theorem collate_fn_sorts_in_place (G : Globals) (data : list item) :
  (collate_fn G data).1 ≡ₚ data
  ∧ StronglySorted (λ a b : item, length b.1.1.2 ≤ length a.1.1.2)%nat
      (collate_fn G data).1
  ∧ (∀ n, filter (λ x : item, length x.1.1.2 = n) (collate_fn G data).1
          = filter (λ x : item, length x.1.1.2 = n) data)
  ∧ (data = [] → (collate_fn G data).2 = Raise ValueError)
  ∧ (g_torch G = true →
     (∃ x y : item, x ∈ data ∧ y ∈ data ∧ length x.1.1.1 ≠ length y.1.1.1) →
     (collate_fn G data).2 = Raise RuntimeError).
Proof.
  unfold collate_fn. cbn [fst snd].
  set (sorted := py_sort_desc (λ x : item, length x.1.1.2) data).
  assert (Hperm : sorted ≡ₚ data) by apply py_sort_desc_perm.
  split_and!.
  - done.
  - apply py_sort_desc_sorted.
  - intros n. apply (py_sort_desc_filter (λ x : item, length x.1.1.2)).
  - intros ->. done.
  - intros HG (x & y & Hx & Hy & Hne). clearbody sorted.
    destruct sorted as [|x0 rest].
    { apply Permutation_nil_l in Hperm. subst. by apply elem_of_nil in Hx. }
    unfold unzip4. run_ok. unfold torch_stack, global_torch. rewrite HG. run_ok.
    rewrite (fmap_cons (λ x : item, x.1.1.1)). cbv beta iota.
    destruct (forallb _ _) eqn:Hall; [| done]. exfalso.
    rewrite forallb_forall in Hall.
    assert (Hsame : ∀ z : item, z ∈ x0 :: rest → length z.1.1.1 = length x0.1.1.1).
    { intros z [-> | Hz]%elem_of_cons; [done |].
      eapply bool_decide_eq_true_1, (Hall z.1.1.1). apply list_elem_of_In.
      apply list_elem_of_fmap. by exists z. }
    rewrite <- Hperm in Hx, Hy. apply Hne.
    by rewrite (Hsame x Hx), (Hsame y Hy).
Qed.

(** ** Normal form of a caption *)

Lemma lower_char_nat c :
  nat_of_ascii (lower_char c)
  = if bool_decide (65 ≤ nat_of_ascii c ≤ 90)%nat
    then (nat_of_ascii c + 32)%nat else nat_of_ascii c.
Proof.
  unfold lower_char. case_bool_decide; [| done].
  rewrite nat_ascii_embedding; lia.
Qed.

(** The characters left in a cleaned, lowercased caption: blanks and other
    whitespace, digits and lowercase letters. *)
Definition plain_char (c : ascii) : Prop :=
  let n := nat_of_ascii c in
  (n = 32 ∨ 9 ≤ n ≤ 13 ∨ 48 ≤ n ≤ 57 ∨ 97 ≤ n ≤ 122)%nat.

Lemma spec_keep_nat c :
  spec_keep c = true ↔
  let n := nat_of_ascii c in
  (n = 32 ∨ 9 ≤ n ≤ 13 ∨ 48 ≤ n ≤ 57 ∨ 65 ≤ n ≤ 90 ∨ 97 ≤ n ≤ 122)%nat.
Proof.
  unfold spec_keep, re_space, re_word. cbv zeta.
  rewrite andb_true_iff, orb_true_iff, negb_true_iff,
    !bool_decide_eq_true, bool_decide_eq_false.
  assert (Hus : c = "_"%char ↔ nat_of_ascii c = 95%nat).
  { split; [by intros -> |]. intros H.
    rewrite <- (ascii_nat_embedding c), H. done. }
  rewrite Hus. lia.
Qed.

Lemma lower_char_plain c : spec_keep c = true → plain_char (lower_char c).
Proof.
  rewrite spec_keep_nat. unfold plain_char. cbv zeta.
  rewrite lower_char_nat. case_bool_decide; lia.
Qed.

Lemma plain_char_fixed c :
  plain_char c → spec_keep c = true ∧ lower_char c = c.
Proof.
  unfold plain_char. cbv zeta. intros Hc. split.
  - apply spec_keep_nat. cbv zeta. lia.
  - unfold lower_char. rewrite bool_decide_eq_false_2; [done | lia].
Qed.

Lemma normal_form_chars s :
  Forall plain_char (list_ascii_of_string (str_lower (re_sub s))).
Proof.
  rewrite re_sub_spec_delete. unfold str_lower, spec_delete.
  rewrite !list_ascii_of_string_of_list_ascii.
  apply Forall_fmap, Forall_forall. intros c Hc. simpl.
  apply lower_char_plain. apply list_elem_of_filter in Hc as [Hc _].
  by apply Is_true_true.
Qed.

Lemma normal_form_fixed s :
  Forall plain_char (list_ascii_of_string s) → str_lower (re_sub s) = s.
Proof.
  intros Hs. rewrite re_sub_spec_delete. unfold str_lower, spec_delete.
  rewrite list_ascii_of_string_of_list_ascii.
  transitivity (string_of_list_ascii (list_ascii_of_string s));
    [f_equal | apply string_of_list_ascii_of_string].
  induction Hs as [|c l Hc _ IH]; [done |].
  destruct (plain_char_fixed c Hc) as [Hkeep Hlow].
  rewrite filter_cons_True by (by apply Is_true_true).
  rewrite fmap_cons, Hlow. by f_equal.
Qed.

(** Cleaning and lowercasing a caption, as [tokenize] does before it
    tokenizes, leaves only whitespace, digits and lowercase letters, and
    does nothing to a string that consists of such characters.  So
    [tokenize] gives the same tokens for a caption and for its cleaned,
    lowercased form: case, punctuation, underscores and all bytes outside
    ASCII play no part in the tokens. *)
Theorem tokenize_normal_form (s : string) :
  Forall plain_char (list_ascii_of_string (str_lower (re_sub s)))
  ∧ str_lower (re_sub (str_lower (re_sub s))) = str_lower (re_sub s)
  ∧ tokenize (str_lower (re_sub s)) = tokenize s
  ∧ tokenize s = Ok (word_tokenize (str_lower (re_sub s))).
Proof.
  assert (Hfix : str_lower (re_sub (str_lower (re_sub s))) = str_lower (re_sub s))
    by apply normal_form_fixed, normal_form_chars.
  assert (Htok : ∀ s', tokenize s' = Ok (word_tokenize (str_lower (re_sub s')))).
  { intros s'. unfold tokenize. rewrite re_sub_spec_delete.
    by rewrite str_decode_utf8_clean. }
  split_and!.
  - apply normal_form_chars.
  - done.
  - by rewrite !Htok, Hfix.
  - apply Htok.
Qed.

(** ** The vocabulary and the threshold *)

Lemma build_vocabulary_contains captions path threshold w :
  Vocab.contains (build_vocabulary captions path threshold).1 w
  ↔ w ∈ special_tokens
    ∨ (w ∈ concat captions ∧ threshold ≤ Z.of_nat (count_in w (concat captions))).
Proof.
  unfold build_vocabulary. cbn [fst].
  rewrite add_words_contains, elem_of_frequent_words, !add_word_contains.
  unfold special_tokens. rewrite !elem_of_cons, elem_of_nil.
  unfold Vocab.contains at 1, Vocab.empty. cbn [Vocab.word2idx].
  rewrite lookup_empty. split.
  - intros [(n & Hn & Ht) | Hsp].
    + right. rewrite counts_captions in Hn. case_decide; [| done].
      by injection Hn as <-.
    + left. destruct Hsp as [-> | [-> | [-> | [-> | [x Hx]]]]];
        try discriminate Hx; auto 10.
  - intros [Hsp | [Hin Ht]].
    + right. destruct Hsp as [-> | [-> | [-> | [-> | []]]]]; auto 10.
    + left. exists (count_in w (concat captions)).
      rewrite counts_captions. by rewrite decide_True.
Qed.

(** How the vocabulary depends on its inputs: raising the threshold only
    removes words; with a threshold of at most 1 every word of the
    captions is in the vocabulary; and the words in the vocabulary depend
    only on how often each word occurs, not on the order of the captions
    or of the words in them. *)
Theorem build_vocabulary_threshold (captions : list (list string))
    (path : string) (w : string) :
  (∀ t1 t2, t1 ≤ t2 →
     Vocab.contains (build_vocabulary captions path t2).1 w →
     Vocab.contains (build_vocabulary captions path t1).1 w)
  ∧ (∀ t, t ≤ 1 → w ∈ concat captions →
       Vocab.contains (build_vocabulary captions path t).1 w)
  ∧ (∀ t captions' path', concat captions' ≡ₚ concat captions →
       (Vocab.contains (build_vocabulary captions' path' t).1 w
        ↔ Vocab.contains (build_vocabulary captions path t).1 w)).
Proof.
  split_and!.
  - intros t1 t2 Ht. rewrite !build_vocabulary_contains.
    intros [? | [? ?]]; [by left | right; split; [done | lia]].
  - intros t Ht Hin. apply build_vocabulary_contains. right. split; [done |].
    apply count_in_pos in Hin. lia.
  - intros t captions' path' Hperm. rewrite !build_vocabulary_contains.
    unfold count_in. by rewrite Hperm.
Qed.

(** ** Batches on the module as written *)

(** The first batch of the batch sampler is not empty when there is an
    index to serve. *)
Lemma batch_sampler_head (batch_size : Z) (acc order : list nat) :
  acc ≠ [] ∨ order ≠ [] →
  ∃ i b rest, batch_sampler batch_size acc order = (i :: b) :: rest.
Proof.
  revert acc. induction order as [|idx order IH]; intros acc Hne.
  - destruct acc as [|a acc]; [by destruct Hne |]. simpl. eauto.
  - cbn [batch_sampler]. case_bool_decide.
    + destruct acc as [|a acc]; simpl; eauto.
    + apply IH. left. by destruct acc.
Qed.

(** [__getitem__] stops at line 198 on the module as written. *)
Lemma getitem_raises_name_error h self index d :
  h_datasets h !! self = Some d →
  ImageCaptionDataset_getitem module_globals h self index
  = Raise (NameError "torch").
Proof.
  intros Hd. unfold ImageCaptionDataset_getitem, deref_dataset.
  by rewrite Hd.
Qed.

Lemma loader_next_raises h it d i b rest :
  h_datasets h !! dl_dataset (it_loader it) = Some d →
  pending_batches h it = Ok ((i :: b) :: rest) →
  (DataLoaderIter_next module_globals h it).2 = Raise (NameError "torch").
Proof.
  intros Hd Hp. unfold DataLoaderIter_next. rewrite Hp. cbn [snd rmapM].
  by rewrite (getitem_raises_name_error _ _ _ d).
Qed.

(** No request to a loader iterator is answered with a batch. *)
Lemma loader_next_never_serves h it :
  ∃ e, (DataLoaderIter_next module_globals h it).2 = Raise e.
Proof.
  unfold DataLoaderIter_next.
  destruct (pending_batches h it) as [[|[|i b] rest]|e]; cbn [snd rmapM].
  - by eexists.
  - destruct (dl_collate_fn (it_loader it)); eexists; reflexivity.
  - assert (∃ e, ImageCaptionDataset_getitem module_globals h
                   (dl_dataset (it_loader it)) i = Raise e) as [e ->].
    { unfold ImageCaptionDataset_getitem, deref_dataset.
      destruct (h_datasets h !! _); eexists; reflexivity. }
    eexists. reflexivity.
  - by eexists.
Qed.

(** C6, on the module as written.  [add_trainset] stores a loader over
    the dataset with the batch size given, [shuffle] enabled and
    [collate_fn], whose index batches follow the order [torch.randperm]
    draws; [add_valset] stores one with [shuffle] disabled and
    [collate_fn], whose index batches follow the original order of the
    dataset.  But neither serves a mini-batch: for a dataset that holds an
    item, the first request to either loader raises [NameError], since
    building the first item of the batch evaluates the global name
    [torch] (line 198), which the module does not bind; and no request to
    any loader iterator is answered with a batch. *)
Theorem stored_loaders_raise_name_error (self : DatasetCollection)
    (name : string) (dset : nat) (batch_size : Z) (h : Heap)
    (d : ImageCaptionDataset) :
  (∀ n, torch_randperm n ≡ₚ seq 0 n) →
  h_datasets h !! dset = Some d →
  (0 < ds_length d)%nat →
  (∃ it,
     data_loaders (add_trainset self name dset batch_size) !! name = Some it
     ∧ it_loader it = {| dl_dataset := dset; dl_batch_size := batch_size;
                         dl_shuffle := true; dl_pin_memory := true;
                         dl_collate_fn := the_collate_fn |}
     ∧ pending_batches h it
       = Ok (batch_sampler batch_size [] (torch_randperm (ds_length d)))
     ∧ (DataLoaderIter_next module_globals h it).2
       = Raise (NameError "torch"))
  ∧ (∃ loader,
       val_loaders (add_valset self name dset batch_size) !! name = Some loader
       ∧ loader = {| dl_dataset := dset; dl_batch_size := batch_size;
                     dl_shuffle := false; dl_pin_memory := true;
                     dl_collate_fn := the_collate_fn |}
       ∧ pending_batches h (DataLoader_iter loader)
         = Ok (batch_sampler batch_size [] (seq 0 (ds_length d)))
       ∧ (DataLoaderIter_next module_globals h (DataLoader_iter loader)).2
         = Raise (NameError "torch"))
  ∧ (∀ (h' : Heap) (it' : DataLoaderIter),
       ∃ e, (DataLoaderIter_next module_globals h' it').2 = Raise e).
Proof.
  intros Hperm Hd Hlen.
  assert (Hpending : ∀ dl,
    dl_dataset dl = dset →
    pending_batches h (DataLoader_iter dl)
    = Ok (batch_sampler (dl_batch_size dl) [] (sampler_order dl (ds_length d)))).
  { intros dl Hdl. unfold pending_batches, DataLoader_iter,
      ImageCaptionDataset_len, deref_dataset.
    cbn [it_pending it_loader]. by rewrite Hdl, Hd. }
  split; [| split].
  - eexists. unfold add_trainset. cbn [data_loaders].
    rewrite lookup_insert_eq. split; [done |]. split; [done |].
    rewrite Hpending by done. unfold sampler_order.
    cbn [dl_shuffle dl_batch_size]. split; [done |].
    destruct (batch_sampler_head batch_size [] (torch_randperm (ds_length d)))
      as (i & b & rest & Hhead).
    { right. intros Hnil. pose proof (Permutation_length (Hperm (ds_length d))) as Hl.
      rewrite Hnil, length_seq in Hl. simpl in Hl. lia. }
    eapply loader_next_raises; [exact Hd |].
    rewrite Hpending by done. unfold sampler_order.
    cbn [dl_shuffle dl_batch_size]. by rewrite Hhead.
  - eexists. unfold add_valset. cbn [val_loaders].
    rewrite lookup_insert_eq. split; [done |]. split; [done |].
    rewrite Hpending by done. unfold sampler_order.
    cbn [dl_shuffle dl_batch_size]. split; [done |].
    destruct (batch_sampler_head batch_size [] (seq 0 (ds_length d)))
      as (i & b & rest & Hhead).
    { right. intros Hnil. apply (f_equal length) in Hnil.
      rewrite length_seq in Hnil. simpl in Hnil. lia. }
    eapply loader_next_raises; [exact Hd |].
    rewrite Hpending by done. unfold sampler_order.
    cbn [dl_shuffle dl_batch_size]. by rewrite Hhead.
  - apply loader_next_never_serves.
Qed.

(** ** The order of the Multi30K captions *)

Lemma string_app_nil_r (s : string) : s +:+ "" = s.
Proof.
  induction s as [|a s IH]; [done |]. by rewrite string_app_cons, IH.
Qed.

Lemma rmapM_Forall2 {A B} (f : A → result B) l r :
  Forall2 (λ x y, f x = Ok y) l r → rmapM f l = Ok r.
Proof.
  induction 1 as [|x y l r Hx _ IH]; [done |].
  cbn [rmapM]. by rewrite Hx, IH.
Qed.

(** Lists of one length, one after the other. *)
Lemma concat_rows {A} (n : nat) (rows : list (list A)) :
  Forall (λ row, length row = n) rows →
  length (concat rows) = (n * length rows)%nat
  ∧ ∀ i x, (x < n)%nat →
      concat rows !! (n * i + x)%nat = rows !! i ≫= (.!! x).
Proof.
  induction 1 as [|row rows Hrow _ [IHlen IH]].
  - split; [simpl; lia |]. intros i x _. by rewrite !lookup_nil.
  - split; [simpl; rewrite length_app, IHlen, Hrow; lia |].
    intros [|i] x Hx; simpl.
    + rewrite lookup_app_l by lia.
      by replace (n * 0 + x)%nat with x by lia.
    + rewrite lookup_app_r by lia. rewrite Hrow.
      replace (n * S i + x - n)%nat with (n * i + x)%nat by lia.
      by apply IH.
Qed.

(** C4, on the Multi30K readers.  Take Multi30K files as the dataset has
    them: a feature file of [n] image vectors and five caption files of
    [n] lines each, line [x] of file [i] being the [i]-th caption of image
    [x].  Then [load_data] returns [5 * n] images and [5 * n] captions,
    and position [p] holds image [p / 5], each vector being repeated five
    times in a row, but the caption of line [p mod n] of file
    [p / n + 1]: the captions come file by file, so that position [p]
    pairs image [p / 5] with a caption of image [p mod n].  With two
    images or more the captions at [5 * i .. 5 * i + 4] are not the five
    captions of the image at these positions: position 1 holds the first
    image and the first caption of the second. *)
Theorem load_data_m30k_pairs_by_file (fs : FileSystem)
    (name lang split : string) (lang_prefix : bool) (downsample : Z)
    (vectors0 : list (list float)) (files : list (list string)) :
  (name = "m30ken" ∧ lang = "en" ∨ name = "m30kde" ∧ lang = "de") →
  fs_npy fs (m30k_feature_path M30K_PATH split) = Some vectors0 →
  Forall2 (λ i lines,
             fs_text fs (m30k_caption_path M30K_PATH lang split i)
             = Some (unlines lines)
             ∧ Forall (free_of newline) lines
             ∧ length lines = length vectors0)
          (seq 1 5) files →
  ∃ images captions,
    load_data fs name split lang_prefix downsample = Ok (images, captions)
    ∧ length images = (5 * length vectors0)%nat
    ∧ length captions = (5 * length vectors0)%nat
    ∧ (∀ p, (p < 5 * length vectors0)%nat →
         images !! p = astype vectors0 !! (p / 5)%nat
         ∧ captions !! p
           = files !! (p / length vectors0)%nat
             ≫= (.!! (p mod length vectors0)%nat))
    ∧ ((2 ≤ length vectors0)%nat →
       images !! 1%nat = astype vectors0 !! 0%nat
       ∧ captions !! 1%nat = files !! 0%nat ≫= (.!! 1%nat)).
Proof.
  intros Hname Hnpy Hfiles.
  assert (Hload : load_data fs name split lang_prefix downsample
                  = read_m30K fs M30K_PATH lang split lang_prefix).
  { unfold load_data. destruct Hname as [[-> ->] | [-> ->]].
    - rewrite (bool_decide_eq_false_2 ("m30ken" = "coconumpy")) by done.
      by rewrite bool_decide_eq_true_2.
    - rewrite (bool_decide_eq_false_2 ("m30kde" = "coconumpy")) by done.
      rewrite (bool_decide_eq_false_2 ("m30kde" = "m30ken")) by done.
      by rewrite bool_decide_eq_true_2. }
  assert (Hread : read_m30K fs M30K_PATH lang split lang_prefix
                  = Ok (np_repeat 5 (astype vectors0), concat files)).
  { rewrite read_m30K_unfold. unfold np_load. rewrite Hnpy.
    change (astype <$> Ok vectors0) with (Ok (astype vectors0)). run_ok.
    rewrite (rmapM_Forall2 _ _ files); [done |].
    eapply Forall2_impl; [exact Hfiles |].
    intros i lines (Htxt & Hfree & _). unfold open_read. rewrite Htxt. run_ok.
    f_equal. rewrite <- (string_app_nil_r (unlines lines)).
    apply file_lines_unlines_lines; [done |]. apply not_elem_of_nil. }
  assert (Hrows : Forall (λ row : list string, length row = length vectors0)
                    files).
  { apply Forall2_Forall_r with (l := seq 1 5)
      (P := λ i lines,
              fs_text fs (m30k_caption_path M30K_PATH lang split i)
              = Some (unlines lines)
              ∧ Forall (free_of newline) lines
              ∧ length lines = length vectors0); [exact Hfiles |].
    apply Forall_forall. intros i _ lines (_ & _ & Hlen). exact Hlen. }
  destruct (concat_rows (length vectors0) files Hrows) as [Hlen Hlookup].
  assert (Hfive : length files = 5%nat).
  { apply Forall2_length in Hfiles. by rewrite <- Hfiles. }
  assert (Hvec : length (astype vectors0) = length vectors0).
  { unfold astype. apply length_map. }
  exists (np_repeat 5 (astype vectors0)), (concat files).
  split; [by rewrite Hload |].
  split; [by rewrite np_repeat_length, Hvec |].
  split; [rewrite Hlen, Hfive; lia |].
  split.
  - intros p Hp. split.
    + rewrite (Nat.div_mod_eq p 5) at 1.
      apply np_repeat_lookup. apply Nat.mod_upper_bound. lia.
    + rewrite (Nat.div_mod_eq p (length vectors0)) at 1.
      apply Hlookup. apply Nat.mod_upper_bound. lia.
  - intros Hn. split.
    + apply (np_repeat_lookup (astype vectors0) 0 1). lia.
    + rewrite <- (Hlookup 0%nat 1%nat) by lia. f_equal. lia.
Qed.

End Data2.

(** * Concrete runs *)

(** A shuffle and a random permutation to run the model with: both
    reverse their input. *)
Definition ex_shuffle (l : list nat) : list nat := reverse l.
Definition ex_randperm (n : nat) : list nat := reverse (seq 0 n).

Lemma ex_shuffle_permutes l : ex_shuffle l ≡ₚ l.
Proof. apply reverse_Permutation. Qed.

Lemma ex_randperm_permutes n : ex_randperm n ≡ₚ seq 0 n.
Proof. apply reverse_Permutation. Qed.

(** Feature values are numbers that [astype] leaves as they are. *)
Definition ex_astype (x : nat) : nat := x.

(** A tokenizer that splits at blanks. *)
Definition ex_word_tokenize (s : string) : list string :=
  str_split " "%char s.

(** The text of a caption file with the lines ["a0"], ["a1"], ... *)
Definition ex_caption_text (n : nat) : string :=
  foldr (λ i s, "a" +:+ pretty i +:+ String newline s) "" (seq 0 n).

(** The COCO validation files for [n] images with five captions each. *)
Definition ex_coco_val (n : nat) : @FileSystem nat :=
  {| fs_text := λ p,
       if bool_decide (p = coco_caption_path COCO_PATH "val")
       then Some (ex_caption_text (5 * n)) else None;
     fs_npy := λ p,
       if bool_decide (p = coco_feature_path COCO_PATH "val")
       then Some ((λ i, [i]) <$> seq 1 n) else None |}.

Example ex_coco_val_run :
  load_data ex_astype ex_shuffle (ex_coco_val 3) "coconumpy" "val" false 0
  = Ok ([[2]; [2]; [2]; [2]; [2]; [1]; [1]; [1]; [1]; [1]]%nat,
        ["a5"; "a6"; "a7"; "a8"; "a9"; "a0"; "a1"; "a2"; "a3"; "a4"]).
Proof. vm_compute. reflexivity. Qed.

(** ** Downsampling *)

(** [read_coco_downsample] at three images downsampled to two. *)
Lemma read_coco_downsample_witness :
  length (coco_kept ex_shuffle 3 2) = 2%nat
  ∧ NoDup (coco_kept ex_shuffle 3 2)
  ∧ ∃ images captions,
      read_coco ex_astype ex_shuffle (ex_coco_val 3) COCO_PATH "val" false 2
      = Ok (images, captions)
      ∧ length images = 10%nat ∧ length captions = 10%nat.
Proof.
  destruct (read_coco_downsample ex_astype ex_shuffle ex_shuffle_permutes
              (ex_coco_val 3) COCO_PATH "val" false 2
              [[1]; [2]; [3]]%nat (ex_caption_text 15)
              eq_refl eq_refl ltac:(simpl; lia))
    as ((Hlen & Hnd & _) & Htotal & Hres).
  split; [exact Hlen |]. split; [exact Hnd |].
  destruct Htotal as (images & captions & Hrun); [vm_compute; lia |].
  exists images, captions. split; [exact Hrun |].
  destruct (Hres images captions Hrun) as (Hi & Hc & _). split; assumption.
Defined.

(** [load_data_layout] at the COCO validation split of three images. *)
Lemma load_data_layout_witness :
  ∃ vectors0,
    fs_npy (ex_coco_val 3) (feature_path "coconumpy" "val") = Some vectors0
    ∧ NoDup (kept_indices ex_shuffle (length (astype ex_astype vectors0))
               (effective_downsample "coconumpy" "val" 0))
    ∧ Forall (λ x, x < length (astype ex_astype vectors0) - 1)%nat
        (kept_indices ex_shuffle (length (astype ex_astype vectors0))
           (effective_downsample "coconumpy" "val" 0)).
Proof.
  destruct (load_data_layout ex_astype ex_shuffle ex_shuffle_permutes
              (ex_coco_val 3) "coconumpy" "val" false 0 _ _ ex_coco_val_run)
    as (vectors0 & Hfile & Hnd & _ & Hlast & _).
  exists vectors0. split; [exact Hfile |]. split; [exact Hnd |].
  apply Hlast. vm_compute. discriminate.
Defined.

(** ** Loaders and the collection *)

Definition ex_dataset (captions : list string) (images : list (list nat))
    (tokens : list (list string)) : @ImageCaptionDataset nat :=
  {| ds_captions := captions; ds_images := images;
     ds_length := length captions; ds_tokenized_captions := tokens;
     ds_vocab := None |}.

(** A store with two datasets and no vocabulary yet. *)
Definition ex_heap : @Heap nat :=
  {| h_vocabs := [];
     h_datasets :=
       [ ex_dataset ["a dog"; "a cat"; "a dog runs"] [[1]; [1]; [2]]%nat
                    [["a"; "dog"]; ["a"; "cat"]; ["a"; "dog"; "runs"]];
         ex_dataset ["ein hund"] [[3]]%nat [["ein"; "hund"]] ];
     h_files := [] |}.

(** The collection with both registered as training sets. *)
Definition ex_collection : DatasetCollection :=
  add_trainset (add_trainset DatasetCollection_init "m30ken" 0 2) "m30kde" 1 2.

Lemma ex_collection_keys :
  dict_keys (data_loaders ex_collection) = ["m30kde"; "m30ken"]
  ∨ dict_keys (data_loaders ex_collection) = ["m30ken"; "m30kde"].
Proof. vm_compute. tauto. Qed.

(** [add_trainset_add_valset_spec] at the first dataset of the store, in
    batches of two. *)
Lemma add_trainset_add_valset_witness :
  (∃ it batches,
     data_loaders (add_trainset DatasetCollection_init "m30ken" 0 2) !! "m30ken"
     = Some it
     ∧ pending_batches ex_randperm ex_heap it = Ok batches
     ∧ batches_of_size 2 batches
     ∧ concat batches ≡ₚ seq 0 3)
  ∧ (∃ loader batches,
       val_loaders (add_valset DatasetCollection_init "m30ken" 0 2) !! "m30ken"
       = Some loader
       ∧ pending_batches ex_randperm ex_heap (DataLoader_iter loader)
         = Ok batches
       ∧ concat batches = seq 0 3).
Proof.
  destruct (add_trainset_add_valset_spec ex_randperm ex_randperm_permutes
              DatasetCollection_init "m30ken" 0 2 ex_heap _ eq_refl
              ltac:(lia))
    as [(it & batches & Hit & _ & _ & Hb & Hsize & Hperm)
        (loader & vbatches & Hl & _ & Hvb & _ & Hseq)].
  split.
  - exists it, batches. split_and!; [exact Hit | exact Hb | exact Hsize | exact Hperm].
  - exists loader, vbatches. split_and!; [exact Hl | exact Hvb | exact Hseq].
Defined.

Lemma ex_collection_wf (name : string) (l : nat) :
  data_sets ex_collection !! name = Some l →
  is_Some (h_datasets ex_heap !! l).
Proof.
  unfold ex_collection, add_trainset, DatasetCollection_init.
  cbn [data_sets]. rewrite !lookup_insert.
  repeat case_decide; rewrite ?lookup_empty; intros [= <-]; by eexists.
Qed.

(** A namespace in which [random] and [torch] are bound. *)
Definition ex_globals : Globals :=
  {| g_torch := true; g_random := true; g_vocab := Some 0%nat |}.

(** C2 fails as stated.  With two datasets registered, a window of two
    calls does not visit each of them once: on the module as written
    neither call selects a dataset at all, and where [random] is bound
    the two calls select the same dataset when the generator draws the
    same number twice. *)
Lemma next_not_round_robin :
  size (data_loaders ex_collection) = 2%nat
  ∧ ¬ round_robin_window ex_randperm module_globals ex_heap ex_collection [0; 0]%nat
  ∧ ¬ round_robin_window ex_randperm ex_globals ex_heap ex_collection [0; 0]%nat.
Proof.
  split; [vm_compute; reflexivity |]. split.
  - intros (ks & Hks & _). destruct ks as [|k ks]; discriminate Hks.
  - intros (ks & Hks & Hperm).
    assert (Hkeys : next_keys ex_randperm ex_globals ex_heap ex_collection [0; 0]%nat
                    = [Ok "m30ken"; Ok "m30ken"]) by (vm_compute; reflexivity).
    rewrite Hkeys in Hks.
    destruct ks as [|k1 [|k2 [|k3 ks]]]; try discriminate Hks.
    injection Hks as <- <-.
    assert (Hnd : NoDup (dict_keys (data_loaders ex_collection))).
    { apply NoDup_fst_map_to_list. }
    rewrite <- Hperm in Hnd. apply NoDup_cons in Hnd as [Hnot _].
    apply Hnot, list_elem_of_here.
Qed.

(** [next_key_random_choice] on the collection above: each of the two
    registered datasets can be the one a call selects. *)
Lemma next_key_random_choice_witness :
  (∃ r, next_key ex_globals r ex_collection = Ok "m30ken")
  ∧ (∃ r, next_key ex_globals r ex_collection = Ok "m30kde").
Proof.
  destruct (next_key_random_choice ex_randperm ex_globals 0 ex_heap ex_collection)
    as (_ & Hany & _).
  split; apply Hany; try reflexivity;
    apply list_elem_of_In; vm_compute; tauto.
Defined.

(** ** Batches *)

(** Three dataset items with captions of length 2, 4 and 2. *)
Definition ex_items : list (@item nat) :=
  [ ([1; 2], [5; 6], 0, 0); ([3; 4], [7; 8; 9; 1], 1, 1);
    ([3; 4], [7; 8], 2, 2) ]%nat.

(** [collate_fn_sorted_padded] on them: the longest caption comes first,
    the two of length 2 keep their order and are padded to width 4. *)
Lemma collate_fn_sorted_padded_witness :
  collate_fn ex_globals ex_items
  = ([ ([3; 4], [7; 8; 9; 1], 1, 1); ([1; 2], [5; 6], 0, 0);
       ([3; 4], [7; 8], 2, 2) ]%nat,
     Ok ([[3; 4]; [1; 2]; [3; 4]]%nat,
         [[7; 8; 9; 1]; [5; 6; 0; 0]; [7; 8; 0; 0]]%nat,
         [4; 2; 2]%nat, [1; 0; 2]%nat)).
Proof.
  destruct (collate_fn_sorted_padded ex_globals ex_items eq_refl) as (_ & _ & Hrun).
  - discriminate.
  - intros x y Hx Hy. apply list_elem_of_In in Hx, Hy. simpl in Hx, Hy.
    destruct Hx as [<- | [<- | [<- | []]]];
      destruct Hy as [<- | [<- | [<- | []]]]; reflexivity.
  - rewrite Hrun. vm_compute. reflexivity.
Defined.

(** [next_type_error] on the collection above: with [random] bound the
    call selects ['m30ken'] and ends in [TypeError]. *)
Lemma next_type_error_witness :
  next ex_randperm ex_globals 0 ex_heap ex_collection
  = (ex_collection, Raise TypeError).
Proof.
  apply (next_type_error ex_randperm ex_globals 0 ex_heap ex_collection
           "m30ken" 0%nat); vm_compute; reflexivity.
Defined.

(** ** Multi30K files *)

(** Multi30K files for two images, splits ['train'] and ['val'], English:
    caption file [i] holds the [i]-th caption of each image, one per
    line. *)
Definition ex_m30k_caption_file (i : nat) : string :=
  "caption " +:+ pretty i +:+ " of image 0" +:+ String newline
  ("caption " +:+ pretty i +:+ " of image 1" +:+ String newline "").

Definition ex_m30k : @FileSystem nat :=
  {| fs_text := λ p,
       (λ si : string * nat, ex_m30k_caption_file si.2) <$>
       list_find (λ si : string * nat,
                    p = m30k_caption_path M30K_PATH "en" si.1 si.2)
                 (s ← ["train"; "val"]; i ← seq 1 5; [(s, i)]) ≫= λ x, Some x.2;
     fs_npy := λ p,
       if bool_decide (p = m30k_feature_path M30K_PATH "train"
                       ∨ p = m30k_feature_path M30K_PATH "val")
       then Some [[10]; [20]]%nat else None |}.

Example ex_m30k_run :
  load_data ex_astype ex_shuffle ex_m30k "m30ken" "val" false 0
  = Ok ([[10]; [10]; [10]; [10]; [10]; [20]; [20]; [20]; [20]; [20]]%nat,
        [ "caption 1 of image 0"; "caption 1 of image 1";
          "caption 2 of image 0"; "caption 2 of image 1";
          "caption 3 of image 0"; "caption 3 of image 1";
          "caption 4 of image 0"; "caption 4 of image 1";
          "caption 5 of image 0"; "caption 5 of image 1" ]).
Proof. vm_compute. reflexivity. Qed.

(** [read_m30K_captions_by_file] on these files: the ten captions come
    file by file, so that the first five positions hold captions of both
    images. *)
Lemma read_m30K_captions_by_file_witness :
  ∃ files,
    length files = 5%nat
    ∧ concat files
      = [ "caption 1 of image 0"; "caption 1 of image 1";
          "caption 2 of image 0"; "caption 2 of image 1";
          "caption 3 of image 0"; "caption 3 of image 1";
          "caption 4 of image 0"; "caption 4 of image 1";
          "caption 5 of image 0"; "caption 5 of image 1" ].
Proof.
  destruct (read_m30K_captions_by_file ex_astype ex_m30k M30K_PATH "en" "val"
              false _ _ ex_m30k_run) as (files & Hfiles & Hcaps).
  exists files. split; [| symmetry; exact Hcaps].
  apply Forall2_length in Hfiles. symmetry. exact Hfiles.
Defined.

(** [compute_joint_vocab_spec] on the store and the collection above, and
    on a run of [get_loaders] over the Multi30K files. *)
Lemma compute_joint_vocab_witness :
  (∃ h',
     compute_joint_vocab ex_heap ex_collection = Ok h'
     ∧ h_vocabs h'
       = [(build_vocabulary (joint_captions ex_heap ex_collection) "." 4).1]
     ∧ (ds_vocab <$> h_datasets h') = [Some 0%nat; Some 0%nat])
  ∧ (∃ h dc vref d,
       get_loaders ex_astype ex_word_tokenize ex_shuffle ex_m30k ["m30ken"]
                   false 0 2 = Ok (h, dc)
       ∧ data_sets dc !! "m30ken" = Some 0%nat
       ∧ h_datasets h !! 0%nat = Some d
       ∧ ds_vocab d = Some vref).
Proof.
  destruct (compute_joint_vocab_spec ex_astype ex_word_tokenize ex_shuffle)
    as [Hcompute Hloaders].
  split.
  - destruct (Hcompute ex_heap ex_collection ex_collection_wf)
      as (h' & Hrun & Hvocabs & _).
    exists h'. split; [exact Hrun |]. split; [exact Hvocabs |].
    revert Hrun. vm_compute. intros [= <-]. reflexivity.
  - destruct (get_loaders ex_astype ex_word_tokenize ex_shuffle ex_m30k
                ["m30ken"] false 0 2) as [[h dc]|] eqn:Hrun;
      [| vm_compute in Hrun; discriminate Hrun].
    destruct (Hloaders ex_m30k ["m30ken"] false 0 2 h dc Hrun)
      as (vref & vocab & _ & _ & Hall).
    assert (Hname : data_sets dc !! "m30ken" = Some 0%nat).
    { revert Hrun. vm_compute. intros [= <- <-]. reflexivity. }
    destruct (Hall "m30ken" 0%nat Hname) as (d & Hd & Hvoc).
    exists h, dc, vref, d. split_and!; [reflexivity | exact Hname | exact Hd | exact Hvoc].
Defined.

(** A store that holds one vocabulary. *)
Definition ex_vocab_heap : @Heap nat :=
  {| h_vocabs := [(build_vocabulary_default [["a"; "dog"]]).1];
     h_datasets := []; h_files := [] |}.

(** [init_ignores_given_vocab]: a validation set constructed with the
    vocabulary of a training set has no [vocab] of its own. *)
Lemma init_ignores_given_vocab_witness :
  ∃ h' self d,
    ImageCaptionDataset_init ex_word_tokenize ex_vocab_heap
      ["a cat"] [[1%nat]] (Some 0%nat) = Ok (h', self)
    ∧ h_datasets h' !! self = Some d ∧ ds_vocab d = None.
Proof.
  destruct (ImageCaptionDataset_init ex_word_tokenize ex_vocab_heap
              ["a cat"] [[1%nat]] (Some 0%nat)) as [[h' self]|] eqn:Hrun;
    [| vm_compute in Hrun; discriminate Hrun].
  destruct (init_ignores_given_vocab ex_word_tokenize ex_vocab_heap
              ["a cat"] [[1%nat]] 0%nat
              (build_vocabulary_default [["a"; "dog"]]).1 h' self
              eq_refl ltac:(vm_compute; discriminate) Hrun) as (d & Hd & Hvoc).
  exists h', self, d. split_and!; [reflexivity | exact Hd | exact Hvoc].
Defined.

(** ** Items of a dataset *)

(** A store with one vocabulary (the words ["a"] and ["dog"]) and one
    dataset of one image and one caption. *)
Definition ex_item_heap : @Heap nat :=
  {| h_vocabs := [(build_vocabulary [["a"; "dog"]] "." 1).1];
     h_datasets :=
       [ex_dataset ["A dog barks!"] [[7; 8]]%nat [["a"; "dog"; "barks"]]];
     h_files := [] |}.

(** [getitem_spec] on it: the unknown token ["barks"] gets the index of
    ['<unk>']. *)
Lemma getitem_spec_witness :
  ImageCaptionDataset_getitem ex_globals ex_item_heap 0 0
  = Ok ([7; 8], [1; 4; 5; 3; 2], 0, 0)%nat.
Proof.
  rewrite (getitem_spec ex_globals ex_item_heap 0 0 0 3
             (ex_dataset ["A dog barks!"] [[7; 8]]%nat [["a"; "dog"; "barks"]])
             (build_vocabulary [["a"; "dog"]] "." 1).1
             [7; 8]%nat ["a"; "dog"; "barks"]
             eq_refl eq_refl eq_refl eq_refl eq_refl eq_refl eq_refl).
  vm_compute. reflexivity.
Defined.

(** [getitem_errors] on it: the module as written fails on [torch], and
    index 1 is out of range. *)
Lemma getitem_errors_witness :
  ImageCaptionDataset_getitem module_globals ex_item_heap 0 0
  = Raise (NameError "torch")
  ∧ ImageCaptionDataset_getitem ex_globals ex_item_heap 0 1 = Raise IndexError.
Proof.
  destruct (getitem_errors ex_item_heap 0 1
              (ex_dataset ["A dog barks!"] [[7; 8]]%nat [["a"; "dog"; "barks"]])
              eq_refl) as (_ & Hindex & _).
  destruct (getitem_errors ex_item_heap 0 0
              (ex_dataset ["A dog barks!"] [[7; 8]]%nat [["a"; "dog"; "barks"]])
              eq_refl) as (Hname & _ & _).
  split; [exact Hname |]. apply Hindex; [reflexivity | left; reflexivity].
Defined.

(** ** Caption files *)

Lemma free_of_decide (c : ascii) (s : string) :
  bool_decide (c ∉ list_ascii_of_string s) = true → free_of c s.
Proof. apply bool_decide_eq_true_1. Qed.

(** [file_lines_unlines]: the last line, which no newline ends, is lost. *)
Lemma file_lines_unlines_witness :
  file_lines ("a dog" +:+ String newline ("a cat" +:+ String newline "a bird"))
  = ["a dog"; "a cat"].
Proof.
  apply (file_lines_unlines ["a dog"; "a cat"] "a bird").
  - repeat constructor; apply free_of_decide; vm_compute; reflexivity.
  - apply free_of_decide. vm_compute. reflexivity.
Defined.

(** A COCO training split of two images whose caption lines carry an
    image id after a tab. *)
Definition ex_coco_entries : list (string * option string) :=
  (λ i, ("caption " +:+ pretty i, Some (pretty (i / 5)%nat))) <$> seq 0 10.

Definition ex_coco_train : @FileSystem nat :=
  {| fs_text := λ p,
       if bool_decide (p = coco_caption_path COCO_PATH "train")
       then Some (unlines (coco_line <$> ex_coco_entries) +:+ "") else None;
     fs_npy := λ p,
       if bool_decide (p = coco_feature_path COCO_PATH "train")
       then Some [[1]; [2]]%nat else None |}.

(** [read_coco_parses_captions] on it. *)
Lemma read_coco_parses_captions_witness :
  read_coco ex_astype ex_shuffle ex_coco_train COCO_PATH "train" false 0
  = Ok (np_repeat 5 [[1]; [2]]%nat,
        (λ i, "caption " +:+ pretty i) <$> seq 0 10).
Proof.
  rewrite (read_coco_parses_captions ex_astype ex_shuffle ex_coco_train
             COCO_PATH "train" false [[1]; [2]]%nat ex_coco_entries ""
             eq_refl eq_refl).
  - vm_compute. reflexivity.
  - apply Forall_forall. intros e He.
    apply list_elem_of_In in He. vm_compute in He.
    repeat (destruct He as [<- | He];
            [split_and!; [apply free_of_decide; vm_compute; reflexivity.. |];
             intros more [= <-]; apply free_of_decide; vm_compute; reflexivity |]).
    destruct He.
  - apply free_of_decide. vm_compute. reflexivity.
Defined.

(** [load_data_val_all_but_last] on the validation files of three images:
    two of them are returned. *)
Lemma load_data_val_all_but_last_witness :
  ∃ images captions,
    load_data ex_astype ex_shuffle (ex_coco_val 3) "coconumpy" "val" false 0
    = Ok (images, captions)
    ∧ length images = 10%nat ∧ length captions = 10%nat.
Proof.
  destruct (load_data_val_all_but_last ex_astype ex_shuffle (ex_coco_val 3)
              false 0 [[1]; [2]; [3]]%nat (ex_caption_text 15)
              ex_shuffle_permutes eq_refl eq_refl
              ltac:(vm_compute; discriminate) ltac:(vm_compute; lia))
    as (images & captions & Hrun & Hi & Hc & _).
  exists images, captions. split; [exact Hrun |]. split; [exact Hi | exact Hc].
Defined.

(** The validation files of three images with the captions of the first
    image only. *)
Definition ex_coco_val_short : @FileSystem nat :=
  {| fs_text := λ p,
       if bool_decide (p = coco_caption_path COCO_PATH "val")
       then Some (ex_caption_text 5) else None;
     fs_npy := fs_npy (ex_coco_val 3) |}.

(** [read_coco_short_caption_file] on them: image 1 is kept and has no
    captions. *)
Lemma read_coco_short_caption_file_witness :
  read_coco ex_astype ex_shuffle ex_coco_val_short COCO_PATH "val" false 2
  = Raise IndexError.
Proof.
  apply (read_coco_short_caption_file ex_astype ex_shuffle ex_coco_val_short
           COCO_PATH "val" false 2 [[1]; [2]; [3]]%nat (ex_caption_text 5) 1
           eq_refl eq_refl).
  - discriminate.
  - apply list_elem_of_In. vm_compute. tauto.
  - vm_compute. lia.
Defined.

(** A file system without files. *)
Definition ex_no_files : @FileSystem nat :=
  {| fs_text := λ _, None; fs_npy := λ _, None |}.

(** [load_data_exceptions] on it: the call raises [IOError], and since
    nothing is downsampled the error is not an [IndexError]. *)
Lemma load_data_exceptions_witness :
  load_data ex_astype ex_shuffle ex_no_files "m30ken" "train" false 0
  = Raise (IOError (feature_path "m30ken" "train"))
  ∧ IOError (feature_path "m30ken" "train") ≠ IndexError.
Proof.
  split; [reflexivity |].
  apply (load_data_exceptions ex_astype ex_shuffle ex_no_files
           "m30ken" "train" false 0
           (IOError (feature_path "m30ken" "train")) eq_refl).
  reflexivity.
Defined.

(** [load_data_missing_file] on the Multi30K files above with the third
    English caption file of the validation split removed. *)
Definition ex_m30k_incomplete : @FileSystem nat :=
  {| fs_text := λ p,
       if bool_decide (p = m30k_caption_path M30K_PATH "en" "val" 3)
       then None else fs_text ex_m30k p;
     fs_npy := fs_npy ex_m30k |}.

Lemma load_data_missing_file_witness :
  load_data ex_astype ex_shuffle ex_m30k_incomplete "m30ken" "val" false 0
  = Raise (IOError (m30k_caption_path M30K_PATH "en" "val" 3)).
Proof.
  destruct (load_data_missing_file ex_astype ex_shuffle ex_m30k_incomplete
              "val" false 0) as (_ & _ & Hcaption).
  apply Hcaption.
  - left. split; reflexivity.
  - eexists. reflexivity.
  - lia.
  - intros j Hj. assert (j = 1 ∨ j = 2)%nat as [-> | ->] by lia;
      eexists; vm_compute; reflexivity.
  - vm_compute. reflexivity.
Defined.

(** ** Collections *)

Lemma ex_collection_built : built ex_collection.
Proof. unfold ex_collection. repeat constructor. Qed.

(** [built_collection_invariant] on the collection of two training sets. *)
Lemma built_collection_invariant_witness :
  dom (data_loaders ex_collection) = dom (data_sets ex_collection).
Proof.
  destruct (built_collection_invariant ex_collection ex_collection_built)
    as (Hdom & _).
  exact Hdom.
Defined.

(** [next_outcome] on it, where [random] is bound, and on the empty
    collection. *)
Lemma next_outcome_witness :
  next ex_randperm ex_globals 1 ex_heap ex_collection
  = (ex_collection, Raise TypeError)
  ∧ next ex_randperm ex_globals 1 ex_heap DatasetCollection_init
    = (DatasetCollection_init, Raise IndexError).
Proof.
  split.
  - rewrite (next_outcome ex_randperm ex_globals 1 ex_heap ex_collection
               ex_collection_built).
    reflexivity.
  - rewrite (next_outcome ex_randperm ex_globals 1 ex_heap
               DatasetCollection_init built_init).
    reflexivity.
Defined.

(** [get_loaders_shape] on a run over the Multi30K files. *)
Lemma get_loaders_shape_witness :
  ∃ h dc,
    get_loaders ex_astype ex_word_tokenize ex_shuffle ex_m30k ["m30ken"]
                false 0 2 = Ok (h, dc)
    ∧ length (h_datasets h) = 2%nat ∧ length (h_vocabs h) = 2%nat
    ∧ ∃ loader d, val_loaders dc !! "m30ken" = Some loader
                  ∧ h_datasets h !! dl_dataset loader = Some d
                  ∧ ds_vocab d = None.
Proof.
  destruct (get_loaders ex_astype ex_word_tokenize ex_shuffle ex_m30k
              ["m30ken"] false 0 2) as [[h dc]|] eqn:Hrun;
    [| vm_compute in Hrun; discriminate Hrun].
  destruct (get_loaders_shape ex_astype ex_word_tokenize ex_shuffle ex_m30k
              ["m30ken"] false 0 2 h dc Hrun)
    as (_ & _ & Hdom & _ & Hds & Hvs & _ & Hval).
  exists h, dc. split; [reflexivity |]. split; [exact Hds |]. split; [exact Hvs |].
  assert (Hin : "m30ken" ∈ dom (val_loaders dc)).
  { rewrite Hdom. apply elem_of_list_to_set, list_elem_of_here. }
  apply elem_of_dom in Hin as [loader Hloader].
  destruct (Hval "m30ken" loader Hloader) as (d & Hd & Hvoc).
  exists loader, d. split; [exact Hloader |]. split; [exact Hd | exact Hvoc].
Defined.

(** [get_loaders_names] on a list that starts with an unknown name. *)
Lemma get_loaders_names_witness :
  get_loaders ex_astype ex_word_tokenize ex_shuffle ex_m30k
              ["flickr"; "m30ken"] false 0 2
  = Raise NotImplementedError.
Proof.
  destruct (get_loaders_names ex_astype ex_word_tokenize ex_shuffle ex_m30k
              false 0 2) as (_ & Hfirst & _).
  apply Hfirst.
  apply (bool_decide_eq_true_1 ("flickr" ∉ ["coconumpy"; "m30ken"; "m30kde"])).
  vm_compute. reflexivity.
Defined.

(** ** Batch requests on the module as written *)

(** [stored_loaders_raise_name_error] at the first dataset of the store,
    in batches of two: the first request to the training loader and to
    the validation loader raises [NameError]. *)
Lemma stored_loaders_raise_name_error_witness :
  (∃ it,
     data_loaders (add_trainset DatasetCollection_init "m30ken" 0 2) !! "m30ken"
     = Some it
     ∧ (DataLoaderIter_next ex_randperm module_globals ex_heap it).2
       = Raise (NameError "torch"))
  ∧ (∃ loader,
       val_loaders (add_valset DatasetCollection_init "m30ken" 0 2) !! "m30ken"
       = Some loader
       ∧ (DataLoaderIter_next ex_randperm module_globals ex_heap
            (DataLoader_iter loader)).2
         = Raise (NameError "torch")).
Proof.
  destruct (stored_loaders_raise_name_error ex_randperm
              DatasetCollection_init "m30ken" 0 2 ex_heap _
              ex_randperm_permutes eq_refl ltac:(simpl; lia))
    as [(it & Hit & _ & _ & Hnext) [(loader & Hl & _ & _ & Hvnext) _]].
  split.
  - exists it. split; [exact Hit | exact Hnext].
  - exists loader. split; [exact Hl | exact Hvnext].
Defined.

(** ** Images and captions of Multi30K *)

(** The lines of the caption files of [ex_m30k]. *)
Definition ex_m30k_lines : list (list string) :=
  (λ i, (λ x, "caption " +:+ pretty i +:+ " of image " +:+ pretty x)
        <$> seq 0 2) <$> seq 1 5.

(** [load_data_m30k_pairs_by_file] on the Multi30K files of two images:
    position 1 holds the first image and the first caption of the second
    image. *)
Lemma load_data_m30k_pairs_by_file_witness :
  ∃ images captions,
    load_data ex_astype ex_shuffle ex_m30k "m30ken" "val" false 0
    = Ok (images, captions)
    ∧ images !! 1%nat = Some [10%nat]
    ∧ captions !! 1%nat = Some "caption 1 of image 1".
Proof.
  destruct (load_data_m30k_pairs_by_file ex_astype ex_shuffle ex_m30k
              "m30ken" "en" "val" false 0 [[10]; [20]]%nat ex_m30k_lines)
    as (images & captions & Hrun & _ & _ & _ & Hfirst).
  - left. split; reflexivity.
  - reflexivity.
  - repeat constructor;
      solve [ vm_compute; reflexivity
            | apply free_of_decide; vm_compute; reflexivity ].
  - exists images, captions. split; [exact Hrun |].
    destruct Hfirst as [Himg Hcap]; [simpl; lia |].
    split; [rewrite Himg | rewrite Hcap]; vm_compute; reflexivity.
Defined.
